(** * neweats backend: a shallow embedding of the data-access layer

    The JavaScript models of the repository ([models/shopping-list.js],
    [models/user.js], [models/recipe.js]) are thin functions around SQL
    statements sent to one PostgreSQL connection.  They are embedded here as
    computations over an explicit database state: every [await db.query(...)]
    becomes a function on the tables of [neweats-schema.sql], a thrown error
    becomes the left injection of the result, and the tables are threaded
    through the calls. *)

From stdpp Require Import gmap strings list fin_maps pretty.
From Stdlib Require Import ZArith Ascii.

Open Scope string_scope.
Open Scope Z_scope.

(** ** JavaScript values

    The values that cross the HTTP boundary and the driver's result rows are
    JSON-shaped.  An object keeps its properties in insertion order. *)

#[warnings="-register-all"] Inductive json : Type :=
  | JNull
  | JBool (b : bool)
  | JNum (n : Z)
  | JStr (s : string)
  | JArr (items : list json)
  | JObj (props : list (string * json)).

(** Property read [o.key]; [undefined] is [None]. *)
Definition get_prop (key : string) (o : json) : option json :=
  match o with
  | JObj props => snd <$> List.find (λ p, String.eqb p.1 key) props
  | _ => None
  end.

(** [delete o.key]. *)
Definition delete_prop (key : string) (o : json) : json :=
  match o with
  | JObj props => JObj (List.filter (λ p, negb (String.eqb p.1 key)) props)
  | _ => o
  end.

Definition json_of_nullable (s : option string) : json :=
  match s with Some t => JStr t | None => JNull end.
Definition json_of_text_array (l : list string) : json := JArr (JStr <$> l).

(** The double quote and the backslash, as characters. *)
Definition dquote : ascii := "034"%char.
Definition backslash : ascii := "092"%char.

(** [str.replace(/"/g, '\\"')]: a backslash is put before every double
    quote. *)
Fixpoint escape_quotes (str : string) : string :=
  match str with
  | EmptyString => EmptyString
  | String c rest =>
      if Ascii.eqb c dquote
      then String backslash (String dquote (escape_quotes rest))
      else String c (escape_quotes rest)
  end.

Definition hex_digit (n : N) : ascii :=
  match n with
  | 0 => "0" | 1 => "1" | 2 => "2" | 3 => "3" | 4 => "4" | 5 => "5"
  | 6 => "6" | 7 => "7" | 8 => "8" | 9 => "9" | 10 => "a" | 11 => "b"
  | 12 => "c" | 13 => "d" | 14 => "e" | _ => "f"
  end%N%char.

(** [JSON.stringify] on the characters of a string (QuoteJSONString): the
    quote and the backslash are escaped, the control characters get their
    short escape or [\u00xx], every other code unit is copied. *)
Definition quote_json_char (c : ascii) : string :=
  let n := N_of_ascii c in
  if Ascii.eqb c dquote then String backslash (String dquote EmptyString)
  else if Ascii.eqb c backslash then String backslash (String backslash EmptyString)
  else if N.eqb n 8 then String backslash "b"
  else if N.eqb n 9 then String backslash "t"
  else if N.eqb n 10 then String backslash "n"
  else if N.eqb n 12 then String backslash "f"
  else if N.eqb n 13 then String backslash "r"
  else if N.ltb n 32
       then String backslash
              ("u00" ++ String (hex_digit (n / 16)) (String (hex_digit (n mod 16)) EmptyString))
  else String c EmptyString.

Fixpoint quote_json_chars (s : string) : string :=
  match s with
  | EmptyString => EmptyString
  | String c rest => quote_json_char c ++ quote_json_chars rest
  end.

Definition quote_json_string (s : string) : string :=
  String dquote (quote_json_chars s ++ String dquote EmptyString).

(** [JSON.stringify(a)] for an array of strings [a]. *)
Definition JSON_stringify (a : list string) : string :=
  "[" ++ String.concat "," (quote_json_string <$> a) ++ "]".

(** ** expressError.js *)

(** The classes of [expressError.js], plus [DatabaseError] for a rejection
    raised by the PostgreSQL driver itself (it carries no [status]) and
    [LibraryError] for an error thrown by another library call.  A message
    is a JavaScript value: the routes also pass arrays of strings. *)
Inductive ExpressError : Type :=
  | NotFoundError (message : json)
  | UnauthorizedError (message : json)
  | BadRequestError (message : json)
  | ForbiddenError (message : json)
  | DatabaseError (message : json)
  | LibraryError (message : json).

Definition message (e : ExpressError) : json :=
  match e with
  | NotFoundError m | UnauthorizedError m | BadRequestError m
  | ForbiddenError m | DatabaseError m | LibraryError m => m
  end.

(** [super(message, 404)] and its siblings; a driver error has no status. *)
Definition status (e : ExpressError) : option Z :=
  match e with
  | NotFoundError _ => Some 404
  | UnauthorizedError _ => Some 401
  | BadRequestError _ => Some 400
  | ForbiddenError _ => Some 403
  | DatabaseError _ | LibraryError _ => None
  end.

(** [new UnauthorizedError()], with the default argument of the constructor. *)
Definition UnauthorizedError_default : ExpressError := UnauthorizedError (JStr "Unauthorized").

(** ** neweats-schema.sql *)

Module Schema.

(** [CREATE TABLE users]; nullable columns are options. *)
Record users_row : Type := mk_user {
  user_id : Z;
  username : option string;
  password : option string;
  first_name : string;
  last_name : string;
  email : string;
  google_id : option string
}.

(** [CREATE TABLE recipes], keyed below by its primary key [recipe_id]. *)
Record recipes_row : Type := mk_recipe {
  label : string;
  image : option string;
  ingredients : list string;
  url : option string
}.

(** The four tables.  [recipes] is keyed by its TEXT primary key and
    [shopping_list] by its UNIQUE [user_id] (the serial [list_id] is never
    read by the program); [users] keeps the rows in table order. *)
Record db : Type := mk_db {
  users : list users_row;
  recipes : gmap string recipes_row;
  recipes_users : list (Z * string);
  shopping_list : gmap Z (list string)
}.

Definition set_shopping_list (f : gmap Z (list string) → gmap Z (list string)) (d : db) : db :=
  {| users := users d; recipes := recipes d;
     recipes_users := recipes_users d; shopping_list := f (shopping_list d) |}.

Definition set_recipes (f : gmap string recipes_row → gmap string recipes_row) (d : db) : db :=
  {| users := users d; recipes := f (recipes d);
     recipes_users := recipes_users d; shopping_list := shopping_list d |}.

(** [SELECT ... FROM users WHERE user_id = $1]: the matching rows. *)
Definition users_by_id (uid : Z) (d : db) : list users_row :=
  filter (λ u, user_id u = uid) (users d).

(** [SELECT ... FROM users WHERE username = $1]; a NULL username matches
    nothing. *)
Definition users_by_username (name : string) (d : db) : list users_row :=
  filter (λ u, username u = Some name) (users d).

End Schema.

Import Schema.

(** ** Computations against the store

    An [async] model function is a state transformer that either returns a
    value or throws; the store it leaves behind is returned in both cases
    (every statement the program sends is a single auto-committed one). *)

Definition Query (A : Type) : Type := db → (ExpressError + A) * db.

Definition throw {A} (e : ExpressError) : Query A := λ d, (inl e, d).

Definition ret {A} (a : A) : Query A := λ d, (inr a, d).

#[global] Instance query_ret : MRet Query := @ret.
#[global] Instance query_bind : MBind Query := λ A B k m d,
  match m d with
  | (inr a, d') => k a d'
  | (inl e, d') => (inl e, d')
  end.

(** What a call returned (or threw), and the store it left. *)
Definition result {A} (r : (ExpressError + A) * db) : ExpressError + A := r.1.
Definition store {A} (r : (ExpressError + A) * db) : db := r.2.

(** ** models/shopping-list.js

    User ids are the values of the INTEGER column [user_id]. *)

Module ShoppingList.

(** PostgreSQL's [a <@ b] on arrays: every element of [a] occurs in [b]. *)
Definition contained_by (a b : list string) : bool :=
  forallb (λ x, bool_decide (x ∈ b)) a.

(** PostgreSQL's [a || b] on arrays. *)
Definition array_cat (a b : list string) : list string := a ++ b.

(** [INSERT INTO shopping_list (user_id, ingredients) VALUES ($1, $2)
     ON CONFLICT (user_id) DO UPDATE SET ingredients = <set> WHERE <cond>]:
    [on_conflict] maps the stored array to [Some] new array when the
    [WHERE] of the [DO UPDATE] holds and to [None] when it does not (the
    row is then left as it is).  A fresh row is subject to the foreign key
    [fk_user_shopping_list]. *)
Definition insert_on_conflict (uid : Z) (ings : list string)
    (on_conflict : list string → option (list string)) : Query unit :=
  λ d, match shopping_list d !! uid with
       | Some stored =>
           match on_conflict stored with
           | Some new => (inr (), set_shopping_list <[uid := new]> d)
           | None => (inr (), d)
           end
       | None =>
           match users_by_id uid d with
           | _ :: _ => (inr (), set_shopping_list <[uid := ings]> d)
           | [] => (inl (DatabaseError (JStr
               "insert or update on table shopping_list violates foreign key constraint fk_user_shopping_list")), d)
           end
       end.

(** [static async getUserShoppingList(user_id)]. *)
Definition getUserShoppingList (uid : Z) : Query (list string) :=
  λ d, match shopping_list d !! uid with
       | Some ings => (inr ings, d)
       | None => (inr [], d)
       end.

(** [static async addRecipeIngredients(user_id, ingredients)]. *)
Definition addRecipeIngredients (uid : Z) (ings : list string) : Query (list string) :=
  λ d, match head (users_by_id uid d) with
       | None => throw (NotFoundError (JStr ("No user found with ID: " ++ pretty uid))) d
       | Some _ =>
           (insert_on_conflict uid ings
              (λ stored, if negb (contained_by ings stored)
                         then Some (array_cat stored ings) else None);;
            getUserShoppingList uid) d
       end.

(** The object [{ message: ... }] that [updateList] resolves to. *)
Record confirmation : Type := { message : string }.

(** [static async updateList(user_id, ingredients)]. *)
Definition updateList (uid : Z) (ings : list string) : Query confirmation :=
  insert_on_conflict uid ings (λ _, Some ings);;
  mret {| message := "Shopping list updated successfully." |}.

End ShoppingList.

(** ** models/user.js *)

Module User.

Section bcrypt.

(** [bcrypt.compare(data, hash)] on two strings: the password-hashing
    collaborator, kept abstract. *)
Variable bcrypt_compare : string → string → bool.

(** A result row of the [SELECT] in [authenticate], as the driver hands it
    over: the selected columns under their aliases, in the order of the
    select list. *)
Definition authenticate_row (u : users_row) : json :=
  JObj [ ("user_id", JNum (user_id u));
         ("username", json_of_nullable (username u));
         ("password", json_of_nullable (password u));
         ("firstName", JStr (first_name u));
         ("lastName", JStr (last_name u));
         ("email", JStr (email u)) ].

(** [static async authenticate(username, password)].  [bcrypt.compare]
    rejects when the stored hash is null; [isValid === true] is the only way
    to the [return]. *)
Definition authenticate (username password : string) : Query json :=
  λ d, match head (users_by_username username d) with
       | Some u =>
           match Schema.password u with
           | None => throw (LibraryError (JStr "data and hash arguments required")) d
           | Some hash =>
               if bcrypt_compare password hash
               then ret (delete_prop "password" (authenticate_row u)) d
               else throw (UnauthorizedError (JStr "Invalid username/password")) d
           end
       | None => throw (UnauthorizedError (JStr "Invalid username/password")) d
       end.

End bcrypt.

End User.

(** ** models/recipe.js *)

Module Recipe.

(** The destructured parameter [{ recipe_id, label, image, ingredients, url }],
    typed as the JSDoc of [createRecipe] declares it. *)
Record data : Type := {
  recipe_id : string;
  label : string;
  image : string;
  ingredients : list string;
  url : string
}.

(** [const sanitize = (str) => str.replace(/"/g, '\\"')]. *)
Definition sanitize (str : string) : string := escape_quotes str.

(** [JSON.stringify(ingredients).replace(/"/g, '\\"')]. *)
Definition sanitizedIngredients (x : data) : string :=
  escape_quotes (JSON_stringify (ingredients x)).

(** The array returned when the duplicate check finds a row. *)
Definition sanitized_echo (x : data) : json :=
  JArr [ JStr (sanitize (label x)); JStr (sanitize (image x));
         JStr (sanitizedIngredients x); JStr (sanitize (url x)) ].

(** The row of [RETURNING label, image, ingredients, url]. *)
Definition returning_row (r : recipes_row) : json :=
  JObj [ ("label", JStr (Schema.label r));
         ("image", json_of_nullable (Schema.image r));
         ("ingredients", json_of_text_array (Schema.ingredients r));
         ("url", json_of_nullable (Schema.url r)) ].

(** [INSERT INTO recipes (...) VALUES ($1, ..., $5) RETURNING ...]; the
    primary key rejects a second row with the same [recipe_id]. *)
Definition insert_recipe (key : string) (r : recipes_row) : Query json :=
  λ d, match recipes d !! key with
       | Some _ => (inl (DatabaseError (JStr
           "duplicate key value violates unique constraint recipes_pkey")), d)
       | None => (inr (returning_row r), set_recipes <[key := r]> d)
       end.

(** [static async createRecipe({ recipe_id, label, image, ingredients, url })].
    The duplicate check reads the key as it was given; the insert writes the
    sanitized one. *)
Definition createRecipe (x : data) : Query json :=
  λ d, match recipes d !! recipe_id x with
       | Some _ => ret (sanitized_echo x) d
       | None =>
           insert_recipe (sanitize (recipe_id x))
             {| Schema.label := sanitize (label x);
                Schema.image := Some (sanitize (image x));
                Schema.ingredients := ingredients x;
                Schema.url := Some (sanitize (url x)) |} d
       end.

(** [static async getRecipe(recipe_id)]. *)
Definition getRecipe (key : string) : Query json :=
  λ d, match recipes d !! key with
       | Some r => ret (returning_row r) d
       | None => throw (NotFoundError (JStr ("No recipe: " ++ key))) d
       end.

End Recipe.

(** ** helpers/sql.js *)

Module Sql.

(** Modelled from the spec: the failure of the clause builder of the missing
    [helpers/sql.js] on an empty field map (section 4.1). *)
Inductive sql_error : Type := EmptyInputError.

(** What [models/user.js] destructures from the call:
    [const { setCols, values } = sqlForPartialUpdate(...)]. *)
Record partial_update (V : Type) : Type := {
  setCols : list string;
  values : list V
}.
Arguments setCols {V} _.
Arguments values {V} _.

(** Modelled from the spec: the storage column of a logical field of the
    missing [helpers/sql.js]: its entry in the remapping table, or the
    field's own name (section 4.1). *)
Definition column (jsToSql : gmap string string) (field : string) : string :=
  match jsToSql !! field with
  | Some col => col
  | None => field
  end.

(** Modelled from the spec: the positional placeholder with number [n] of
    the missing [helpers/sql.js], written as [models/user.js] writes its
    own: ["$" + (values.length + 1)]. *)
Definition placeholder (n : nat) : string := "$" ++ pretty n.

(** Modelled from the spec: the fragment of the missing [helpers/sql.js]
    for the field at (0-based) position [idx]. *)
Definition fragment (jsToSql : gmap string string) (idx : nat) (field : string) : string :=
  column jsToSql field ++ " = " ++ placeholder (S idx).

(** Modelled from the spec: [helpers/sql.js], which defines
    [sqlForPartialUpdate], is not among the sources (only its call in
    [models/user.js] is).  Section 4.1: from a sparse field map, given in the
    order its fields were supplied, and a remapping table, one
    ["<column> = <placeholder>"] fragment per field, numbered from 1, and the
    values in the same order; EmptyInputError on the empty map. *)
Definition sqlForPartialUpdate {V} (dataToUpdate : list (string * V))
    (jsToSql : gmap string string) : sql_error + partial_update V :=
  match dataToUpdate with
  | [] => inl EmptyInputError
  | _ :: _ =>
      inr {| setCols := imap (λ idx kv, fragment jsToSql idx kv.1) dataToUpdate;
             values := snd <$> dataToUpdate |}
  end.

(** The remapping table that [User.update] passes. *)
Definition user_jsToSql : gmap string string :=
  <["firstName" := "first_name"]> (<["lastName" := "last_name"]> ∅).

(** [const useridVarIdx = "$" + (values.length + 1)] in [User.update]. *)
Definition useridVarIdx {V} (r : partial_update V) : string :=
  placeholder (length (values r) + 1).

End Sql.

(** ** middleware/auth.js *)

Module Auth.

(** The [user_id] of a token payload: [createToken] signs the number read
    from the [users] row, the middleware tests sign a string. *)
Inductive id_value : Type :=
  | IdNum (n : Z)
  | IdStr (s : string).

(** The decoded payload [{ firstName, user_id, iat }]. *)
Record claims : Type := {
  firstName : string;
  user_id : id_value;
  iat : Z
}.

(** [res.locals]: the identity context is its [user] property. *)
Record locals : Type := { user : option claims }.

Definition empty_locals : locals := {| user := None |}.

(** What a middleware needs of [req]. *)
Record request (Body : Type) : Type := {
  headers_authorization : option string;
  params_user_id : string;
  body : Body
}.
Arguments headers_authorization {Body} _.
Arguments params_user_id {Body} _.
Arguments body {Body} _.

(** Modelled from the spec: the subject identifier that the missing
    [middleware/auth.js] compares, [user_id] as a string (section 6). *)
Definition subject (c : claims) : string :=
  match user_id c with
  | IdNum n => pretty n
  | IdStr s => s
  end.

(** Modelled from the spec: the token that the missing [middleware/auth.js]
    takes from a header of the form [Bearer <token>] (section 4.2); a header
    of another form carries no token. *)
Definition bearer_token (authHeader : string) : option string :=
  if String.prefix "Bearer " authHeader
  then Some (String.substring 7 (String.length authHeader - 7) authHeader)
  else None.

(** Modelled from the spec: the decisions of the authorization gate of the
    missing [middleware/auth.js] (section 4.3). *)
Inductive gate : Type :=
  | Pass
  | AuthenticationRequired
  | OwnershipMismatch.

(** Modelled from the spec: [middleware/auth.js] is not among the sources
    (only its tests and its callers are).  Section 4.3, require-authenticated. *)
Definition require_authenticated (res : locals) : gate :=
  match user res with
  | None => AuthenticationRequired
  | Some _ => Pass
  end.

(** Modelled from the spec: [middleware/auth.js] is not among the sources.
    Section 4.3, require-owner: the subject identifier and the owner
    identifier of the path are compared as strings. *)
Definition require_owner (res : locals) (owner : string) : gate :=
  match user res with
  | None => AuthenticationRequired
  | Some c => if String.eqb (subject c) owner then Pass else OwnershipMismatch
  end.

(** Modelled from the spec: what the missing [middleware/auth.js] hands to
    [next].  Both failures of the gate are an [UnauthorizedError] (sections
    6 and 7; the tests of the middleware expect
    [err instanceof UnauthorizedError]); [None] stands for [next()]. *)
Definition next_of_gate (g : gate) : option ExpressError :=
  match g with
  | Pass => None
  | AuthenticationRequired | OwnershipMismatch => Some UnauthorizedError_default
  end.

(** Modelled from the spec: [ensureLoggedIn] of the missing
    [middleware/auth.js]. *)
Definition ensureLoggedIn (res : locals) : option ExpressError :=
  next_of_gate (require_authenticated res).

(** Modelled from the spec: [ensureCorrectUser] of the missing
    [middleware/auth.js]. *)
Definition ensureCorrectUser {Body} (req : request Body) (res : locals) : option ExpressError :=
  next_of_gate (require_owner res (params_user_id req)).

Section jwt.

(** [jwt.verify(token, SECRET_KEY)]: the token collaborator; [None] when it
    throws (bad signature, malformed, expired). *)
Variable jwt_verify : string → option claims.

(** Modelled from the spec: [authenticateJWT] of the missing
    [middleware/auth.js].  Section 4.2: the result is the new [res.locals] and
    the argument handed to [next]. *)
Definition authenticateJWT {Body} (req : request Body) (res : locals)
    : locals * option ExpressError :=
  match headers_authorization req with
  | None => (res, None)
  | Some authHeader =>
      match bearer_token authHeader with
      | None => (res, None)
      | Some token =>
          match jwt_verify token with
          | Some payload => ({| user := Some payload |}, None)
          | None => (res, None)
          end
      end
  end.

End jwt.

End Auth.

(** ** JavaScript's [parseInt] and [isNaN] *)

Module Js.

(** Leading white space is dropped: the ASCII white space and line
    terminators, and the UTF-8 encodings of U+00A0, U+1680, U+2000..U+200A,
    U+2028, U+2029, U+202F, U+205F, U+3000 and U+FEFF. *)
Definition ascii_white_space (c : ascii) : bool :=
  let n := N_of_ascii c in
  (N.eqb n 32 || (N.leb 9 n && N.leb n 13))%bool.

Fixpoint trim_start (s : string) : string :=
  match s with
  | EmptyString => EmptyString
  | String c rest =>
      if ascii_white_space c then trim_start rest
      else
        match N_of_ascii c, rest with
        | 194%N, String c1 rest1 =>
            if N.eqb (N_of_ascii c1) 160 then trim_start rest1 else s
        | 225%N, String c1 (String c2 rest2) =>
            if (N.eqb (N_of_ascii c1) 154 && N.eqb (N_of_ascii c2) 128)%bool
            then trim_start rest2 else s
        | 226%N, String c1 (String c2 rest2) =>
            let n1 := N_of_ascii c1 in
            let n2 := N_of_ascii c2 in
            if (N.eqb n1 128
                  && ((N.leb 128 n2 && N.leb n2 138) || N.eqb n2 168
                      || N.eqb n2 169 || N.eqb n2 175)
                || N.eqb n1 129 && N.eqb n2 159)%bool
            then trim_start rest2 else s
        | 227%N, String c1 (String c2 rest2) =>
            if (N.eqb (N_of_ascii c1) 128 && N.eqb (N_of_ascii c2) 128)%bool
            then trim_start rest2 else s
        | 239%N, String c1 (String c2 rest2) =>
            if (N.eqb (N_of_ascii c1) 187 && N.eqb (N_of_ascii c2) 191)%bool
            then trim_start rest2 else s
        | _, _ => s
        end
  end.

(** The value of a digit in the given radix (10 or 16). *)
Definition digit_value (radix : Z) (c : ascii) : option Z :=
  let n := Z.of_N (N_of_ascii c) in
  if (48 <=? n) && (n <=? 57) then Some (n - 48)
  else if (radix =? 16) && (97 <=? n) && (n <=? 102) then Some (n - 87)
  else if (radix =? 16) && (65 <=? n) && (n <=? 70) then Some (n - 55)
  else None.

(** The longest prefix of digits, read in the radix; [None] when it is
    empty. *)
Fixpoint parse_digits (radix : Z) (acc : option Z) (s : string) : option Z :=
  match s with
  | EmptyString => acc
  | String c rest =>
      match digit_value radix c with
      | Some v => parse_digits radix (Some (radix * default 0 acc + v)) rest
      | None => acc
      end
  end.

Definition strip_sign (s : string) : Z * string :=
  match s with
  | String "-" rest => (-1, rest)
  | String "+" rest => (1, rest)
  | _ => (1, s)
  end.

Definition strip_hex_prefix (s : string) : Z * string :=
  match s with
  | String "0" (String "x" rest) | String "0" (String "X" rest) => (16, rest)
  | _ => (10, s)
  end.

(** [parseInt(string)] without a radix argument; [None] is [NaN].  The
    integer read is returned as it is: it is the Number that JavaScript
    returns whenever its magnitude is at most 2^53. *)
Definition parseInt (str : string) : option Z :=
  let '(sign, s1) := strip_sign (trim_start str) in
  let '(radix, s2) := strip_hex_prefix s1 in
  match parse_digits radix None s2 with
  | Some n => Some (sign * n)
  | None => None
  end.


End Js.

(** ** app.js and routes/shopping.js *)

Module Routes.

Import Auth.

(** What supertest reads of a response. *)
Record response : Type := {
  statusCode : Z;
  resp_body : json
}.

(** [res.json(value)]: the status stays 200. *)
Definition res_json (value : json) : response :=
  {| statusCode := 200; resp_body := value |}.

(** The generic error handler of [app.js]:
    [const status = err.status || 500]. *)
Definition error_status (err : ExpressError) : Z :=
  match status err with
  | Some 0 | None => 500
  | Some s => s
  end.

Definition error_handler (err : ExpressError) : response :=
  {| statusCode := error_status err;
     resp_body := JObj [ ("error", JObj [ ("message", message err);
                                          ("status", JNum (error_status err)) ]) ] |}.

(** The body of the shopping routes, [{ ingredients: [...] }], typed as the
    JSDoc of the routes declares it. *)
Record shopping_body : Type := { ingredients : list string }.

(** The confirmation object of [updateList] as JSON. *)
Definition json_of_confirmation (c : ShoppingList.confirmation) : json :=
  JObj [ ("message", JStr (ShoppingList.message c)) ].

Section shopping.

(** [jsonschema.validate(req.body, shoppingSchema).errors.map(e => e.stack)]:
    [schemas/shopping.json] is not among the sources, the validation is kept
    abstract; [validator.valid] holds when there are no errors. *)
Variable shoppingSchema_errors : shopping_body → list string.

(** [router.get("/:user_id", ensureCorrectUser, ...)].  What
    [getUserShoppingList] returns is an array here, so the branch on
    [!Array.isArray(list)] is not taken. *)
Definition get_user_id (req : request shopping_body) (res : locals) (d : db) : response * db :=
  match ensureCorrectUser req res with
  | Some err => (error_handler err, d)
  | None =>
      match Js.parseInt (params_user_id req) with
      | None => (error_handler (BadRequestError (JStr "Invalid user ID.")), d)
      | Some userId =>
          match ShoppingList.getUserShoppingList userId d with
          | (inr list, d') => (res_json (JObj [ ("list", json_of_text_array list) ]), d')
          | (inl err, d') => (error_handler err, d')
          end
      end
  end.

(** [router.post("/:user_id", ensureCorrectUser, ...)]. *)
Definition post_user_id (req : request shopping_body) (res : locals) (d : db) : response * db :=
  match ensureCorrectUser req res with
  | Some err => (error_handler err, d)
  | None =>
      match Js.parseInt (params_user_id req) with
      | None => (error_handler (BadRequestError (JStr "Invalid user ID.")), d)
      | Some userId =>
          match shoppingSchema_errors (body req) with
          | _ :: _ as errs => (error_handler (BadRequestError (json_of_text_array errs)), d)
          | [] =>
              match ShoppingList.addRecipeIngredients userId (ingredients (body req)) d with
              | (inr list, d') => (res_json (JObj [ ("list", json_of_text_array list) ]), d')
              | (inl err, d') => (error_handler err, d')
              end
          end
      end
  end.

(** [router.patch("/:user_id", ensureCorrectUser, ...)]: [list] is what
    [updateList] resolved to. *)
Definition patch_user_id (req : request shopping_body) (res : locals) (d : db) : response * db :=
  match ensureCorrectUser req res with
  | Some err => (error_handler err, d)
  | None =>
      match Js.parseInt (params_user_id req) with
      | None => (error_handler (BadRequestError (JStr "Invalid user ID.")), d)
      | Some userId =>
          match shoppingSchema_errors (body req) with
          | _ :: _ as errs => (error_handler (BadRequestError (json_of_text_array errs)), d)
          | [] =>
              match ShoppingList.updateList userId (ingredients (body req)) d with
              | (inr list, d') => (res_json (JObj [ ("list", json_of_confirmation list) ]), d')
              | (inl err, d') => (error_handler err, d')
              end
          end
      end
  end.

(** [app.use(authenticateJWT)] in front of the route: the request as the
    application serves it, starting from [res.locals = {}]. *)
Definition app_patch_shopping (jwt_verify : string → option claims)
    (req : request shopping_body) (d : db) : response * db :=
  match authenticateJWT jwt_verify req empty_locals with
  | (res, None) => patch_user_id req res d
  | (_, Some err) => (error_handler err, d)
  end.

End shopping.

End Routes.

(** ** models/user.js, the other functions of [User] *)

Module UserStore.

Definition set_users (f : list users_row → list users_row) (d : db) : db :=
  {| users := f (users d); recipes := recipes d;
     recipes_users := recipes_users d; shopping_list := shopping_list d |}.

(** [SELECT ... FROM users WHERE google_id = $1]; a NULL [google_id] matches
    nothing. *)
Definition users_by_google_id (gid : string) (d : db) : list users_row :=
  filter (λ u, google_id u = Some gid) (users d).

(** Text values are UTF-8: a character is a byte that is not a continuation
    byte, followed by its continuation bytes. *)
Definition continuation_byte (c : ascii) : bool :=
  let n := N_of_ascii c in (N.leb 128 n && N.ltb n 192)%bool.

(** The number of characters of a text. *)
Fixpoint char_length (s : string) : nat :=
  match s with
  | EmptyString => O
  | String c rest => if continuation_byte c then char_length rest else S (char_length rest)
  end.

(** The first [n] characters of a text, and what follows them. *)
Fixpoint take_chars (n : nat) (s : string) : string :=
  match s with
  | EmptyString => EmptyString
  | String c rest =>
      if continuation_byte c then String c (take_chars n rest)
      else match n with
           | O => EmptyString
           | S n' => String c (take_chars n' rest)
           end
  end.

Fixpoint drop_chars (n : nat) (s : string) : string :=
  match s with
  | EmptyString => EmptyString
  | String c rest =>
      if continuation_byte c then drop_chars n rest
      else match n with
           | O => s
           | S n' => drop_chars n' rest
           end
  end.

Fixpoint all_spaces (s : string) : bool :=
  match s with
  | EmptyString => true
  | String c rest => (Ascii.eqb c " " && all_spaces rest)%bool
  end.

(** Storing a text in a [VARCHAR(n)] column: a longer text is an error,
    unless what exceeds the [n] characters is all spaces, in which case the
    text is cut to [n] characters. *)
Definition varchar (n : nat) (s : string) : option string :=
  if (char_length s <=? n)%nat then Some s
  else if all_spaces (drop_chars n s) then Some (take_chars n s)
  else None.

(** [position(c IN s)], counted here in bytes: 0 when [c] does not occur,
    1 when it is the first character.  For an ASCII [c] it exceeds 1 exactly
    when the position counted in characters does. *)
Fixpoint position (c : ascii) (s : string) : nat :=
  match s with
  | EmptyString => O
  | String b rest =>
      if Ascii.eqb b c then 1%nat
      else match position c rest with
           | O => O
           | S p => S (S p)
           end
  end.

(** [CHECK (position('@' IN email) > 1)]. *)
Definition users_email_check (email : string) : bool :=
  (1 <? position "@" email)%nat.

(** [INSERT INTO users (...) VALUES (...) RETURNING ...] with the columns the
    program supplies.  [serial] is the value that the sequence of the SERIAL
    column [user_id] hands out for this insert.  The statement is rejected,
    in this order, by the length of [username], by the check on [email], and
    by the primary key and the two UNIQUE constraints; the driver's messages
    are given without their quotation marks.  The row is returned as
    stored. *)
Definition insert_users (serial : Z) (uname pw : option string)
    (fname lname mail : string) (gid : option string) : Query users_row :=
  λ d,
    match match uname with
          | Some n => Some <$> varchar 25 n
          | None => Some None
          end with
    | None => (inl (DatabaseError (JStr "value too long for type character varying(25)")), d)
    | Some stored_name =>
        if negb (users_email_check mail)
        then (inl (DatabaseError (JStr
               "new row for relation users violates check constraint users_email_check")), d)
        else
          match users_by_id serial d,
                match stored_name with Some n => users_by_username n d | None => [] end,
                match gid with Some g => users_by_google_id g d | None => [] end with
          | _ :: _, _, _ => (inl (DatabaseError (JStr
               "duplicate key value violates unique constraint users_pkey")), d)
          | [], _ :: _, _ => (inl (DatabaseError (JStr
               "duplicate key value violates unique constraint users_username_key")), d)
          | [], [], _ :: _ => (inl (DatabaseError (JStr
               "duplicate key value violates unique constraint users_google_id_key")), d)
          | [], [], [] =>
              let row := mk_user serial stored_name pw fname lname mail gid in
              (inr row, set_users (λ rows, (rows ++ [row])%list) d)
          end
    end.

(** The parameter [{ username, password, firstName, lastName, email }] of
    [register], typed as its JSDoc declares it. *)
Record register_data : Type := {
  username : string;
  password : string;
  firstName : string;
  lastName : string;
  email : string
}.

(** The parameter [{ firstName, lastName, email, googleId }] of
    [googleRegister]. *)
Record google_data : Type := {
  g_firstName : string;
  g_lastName : string;
  g_email : string;
  googleId : string
}.

(** [RETURNING user_id, username, first_name AS "firstName",
    last_name AS "lastName", email], also the select list of
    [authenticateWithGoogle]. *)
Definition profile_with_username (u : users_row) : json :=
  JObj [ ("user_id", JNum (user_id u));
         ("username", json_of_nullable (Schema.username u));
         ("firstName", JStr (first_name u));
         ("lastName", JStr (last_name u));
         ("email", JStr (Schema.email u)) ].

(** [RETURNING user_id, first_name AS "firstName", last_name AS "lastName",
    email, google_id AS "googleId"]. *)
Definition profile_with_googleId (u : users_row) : json :=
  JObj [ ("user_id", JNum (user_id u));
         ("firstName", JStr (first_name u));
         ("lastName", JStr (last_name u));
         ("email", JStr (Schema.email u));
         ("googleId", json_of_nullable (google_id u)) ].

(** The select list of [get]. *)
Definition profile (u : users_row) : json :=
  JObj [ ("user_id", JNum (user_id u));
         ("firstName", JStr (first_name u));
         ("lastName", JStr (last_name u));
         ("email", JStr (Schema.email u)) ].

Section bcrypt.

(** [bcrypt.hash(data, BCRYPT_WORK_FACTOR)] draws a salt: the digest is a
    function of the salt and the data, and the salt of a call is an argument
    of the model. *)
Variable bcrypt_hash : string → string → string.

(** [static async register({ username, password, firstName, lastName, email })]. *)
Definition register (salt : string) (serial : Z) (x : register_data) : Query json :=
  λ d, match head (users_by_username (username x) d) with
       | Some _ => throw (BadRequestError (JStr ("Duplicate username: " ++ username x))) d
       | None =>
           (row ← insert_users serial (Some (username x))
                    (Some (bcrypt_hash salt (password x)))
                    (firstName x) (lastName x) (email x) None;
            mret (profile_with_username row)) d
       end.

End bcrypt.

(** [static async googleRegister({ firstName, lastName, email, googleId })]. *)
Definition googleRegister (serial : Z) (x : google_data) : Query json :=
  λ d, match head (users_by_google_id (googleId x) d) with
       | Some _ => throw (BadRequestError (JStr ("Duplicate registration: " ++ googleId x))) d
       | None =>
           (row ← insert_users serial None None
                    (g_firstName x) (g_lastName x) (g_email x) (Some (googleId x));
            mret (profile_with_googleId row)) d
       end.

(** [static async authenticateWithGoogle(googleId)]. *)
Definition authenticateWithGoogle (gid : string) : Query json :=
  λ d, match head (users_by_google_id gid d) with
       | Some u => ret (profile_with_username u) d
       | None => throw (UnauthorizedError (JStr "Invalid Google ID")) d
       end.

(** [static async get(user_id)]. *)
Definition get (uid : Z) : Query json :=
  λ d, match head (users_by_id uid d) with
       | Some u => ret (profile u) d
       | None => throw (NotFoundError (JStr ("No user: " ++ pretty uid))) d
       end.

(** [DELETE FROM users WHERE user_id = $1]: the rows go, and with them, by
    [ON DELETE CASCADE], the rows of [recipes_users] and [shopping_list]
    that reference them. *)
Definition delete_users (uid : Z) (d : db) : db :=
  {| users := filter (λ u, user_id u ≠ uid) (users d);
     recipes := recipes d;
     recipes_users := filter (λ p, p.1 ≠ uid) (recipes_users d);
     shopping_list := delete uid (shopping_list d) |}.

(** [static async remove(user_id)]. *)
Definition remove (uid : Z) : Query unit :=
  λ d, match head (users_by_id uid d) with
       | Some _ => (inr (), delete_users uid d)
       | None => throw (NotFoundError (JStr ("No user: " ++ pretty uid))) d
       end.

End UserStore.

(** ** models/recipes-users.js *)

Module RecipesUsers.

Definition set_recipes_users (f : list (Z * string) → list (Z * string)) (d : db) : db :=
  {| users := users d; recipes := recipes d;
     recipes_users := f (recipes_users d); shopping_list := shopping_list d |}.

(** [... FROM recipes_users WHERE recipe_id = $1 AND user_id = $2]; a row of
    the table is the pair of its [user_id] and its [recipe_id]. *)
Definition relationships (rid : string) (uid : Z) (d : db) : list (Z * string) :=
  filter (λ p, p.2 = rid ∧ p.1 = uid) (recipes_users d).

(** [static async addToUser(recipe_id, user_id)].  The insert is subject to
    the two foreign keys of [recipes_users]. *)
Definition addToUser (rid : string) (uid : Z) : Query json :=
  λ d, match head (relationships rid uid d) with
       | Some _ => ret (JObj [ ("?column?", JNum 1) ]) d
       | None =>
           match users_by_id uid d, recipes d !! rid with
           | [], _ => (inl (DatabaseError (JStr
               "insert or update on table recipes_users violates foreign key constraint fk_user")), d)
           | _ :: _, None => (inl (DatabaseError (JStr
               "insert or update on table recipes_users violates foreign key constraint fk_recipe")), d)
           | _ :: _, Some _ =>
               (inr (JObj [ ("recipe_id", JStr rid); ("user_id", JNum uid) ]),
                set_recipes_users (λ rows, (rows ++ [(uid, rid)])%list) d)
           end
       end.

(** [static async removeFromUser(user_id, recipe_id)]. *)
Definition removeFromUser (uid : Z) (rid : string) : Query unit :=
  λ d, match head (relationships rid uid d) with
       | Some _ =>
           (inr (), set_recipes_users (filter (λ p, ¬ (p.2 = rid ∧ p.1 = uid))) d)
       | None =>
           throw (NotFoundError (JStr ("No recipe-user relationship: " ++ rid
                                       ++ " for user " ++ pretty uid))) d
       end.

End RecipesUsers.

(** ** Constraints of neweats-schema.sql as predicates on the store *)

Module Constraints.

(** [CONSTRAINT fk_user_shopping_list]: every row of [shopping_list]
    references a row of [users]. *)
Definition fk_user_shopping_list (d : db) : Prop :=
  ∀ uid, is_Some (shopping_list d !! uid) → users_by_id uid d ≠ [].

(** Every row that can log in by password has a digest: a row with a
    [username] has a [password]. *)
Definition username_has_password (d : db) : Prop :=
  ∀ u, u ∈ users d → is_Some (username u) → is_Some (password u).

End Constraints.

(** Whether a character occurs in a string. *)
Fixpoint occurs (c : ascii) (s : string) : bool :=
  match s with
  | EmptyString => false
  | String b rest => (Ascii.eqb b c || occurs c rest)%bool
  end.

(** ** tests/_testCommon.js

    The rows that [commonBeforeAll] leaves in the store, with a toy digest
    in place of bcrypt's. *)

Module TestCommon.

Definition toy_hash (plain : string) : string := "digest:" ++ plain.
Definition toy_compare (plain hash : string) : bool := String.eqb (toy_hash plain) hash.

Definition u1 : users_row :=
  mk_user 1 (Some "u1") (Some (toy_hash "password1")) "U1F" "U1L" "user1@user.com" None.
Definition u2 : users_row :=
  mk_user 2 None None "U2F" "U2L" "user2@user.com" (Some "123abc").
Definition u3 : users_row :=
  mk_user 3 (Some "u3") (Some (toy_hash "password3")) "U3F" "U3L" "user3@user.com" None.

Definition r1 : recipes_row :=
  mk_recipe "r1" (Some "www.i1.com") ["i1"; "i2"] (Some "www.test1.com").
Definition r2 : recipes_row :=
  mk_recipe "r2" (Some "www.i2.com") ["i3"; "i4"] (Some "www.test2.com").

Definition test_db : db :=
  {| users := [u1; u2; u3];
     recipes := <["123abc" := r1]> (<["456def" := r2]> ∅);
     recipes_users := [];
     shopping_list := <[1 := ["i1"; "i2"; "i3"]]> ∅ |}.

(** The store before user 1 has added anything. *)
Definition no_list_db : db :=
  {| users := [u1; u2; u3];
     recipes := ∅;
     recipes_users := [];
     shopping_list := ∅ |}.

End TestCommon.

(** ** middleware/auth.test.js and the tokens of tests/_testCommon.js

    Toy tokens in place of signed ones: the verifier knows the payload of
    each token signed with the secret key and rejects the one signed with
    another key. *)

Module AuthTest.

Import Auth.

Definition test_payload : claims :=
  {| firstName := "test"; user_id := IdStr "0"; iat := 0 |}.
Definition u1_payload : claims :=
  {| firstName := "U1F"; user_id := IdNum 1; iat := 0 |}.
Definition u2_payload : claims :=
  {| firstName := "U2F"; user_id := IdNum 2; iat := 0 |}.

Definition testJwt : string := "test.signed-with-secret-key".
Definition badJwt : string := "test.signed-with-wrong".
Definition u1Token : string := "u1.signed-with-secret-key".
Definition u2Token : string := "u2.signed-with-secret-key".

Definition toy_verify (token : string) : option claims :=
  if String.eqb token testJwt then Some test_payload
  else if String.eqb token u1Token then Some u1_payload
  else if String.eqb token u2Token then Some u2_payload
  else None.

(** [{ headers: { authorization: `Bearer ${token}` } }]. *)
Definition bearer_request {Body} (token : string) (path_user_id : string) (b : Body)
    : request Body :=
  {| headers_authorization := Some ("Bearer " ++ token);
     params_user_id := path_user_id;
     body := b |}.

Definition anonymous_request {Body} (path_user_id : string) (b : Body) : request Body :=
  {| headers_authorization := None; params_user_id := path_user_id; body := b |}.

End AuthTest.

(** ** The shopping routes behind [app.use(authenticateJWT)] *)

Module App.

Import Auth Routes.

(** A route of [routes/shopping.js] as the application serves it: the
    request goes through [authenticateJWT], starting from
    [res.locals = {}], and then to the route. *)
Definition serve (jwt_verify : string → option claims)
    (route : request shopping_body → locals → db → response * db)
    (req : request shopping_body) (d : db) : response * db :=
  match authenticateJWT jwt_verify req empty_locals with
  | (res, None) => route req res d
  | (_, Some err) => (error_handler err, d)
  end.

End App.

(** ** Recipes for the examples: a new key, and a key with a double quote *)

Module RecipeTest.

Definition r3 : Recipe.data :=
  {| Recipe.recipe_id := "789ghi"; Recipe.label := "r3"; Recipe.image := "www.i3.com";
     Recipe.ingredients := ["i5"]; Recipe.url := "www.test3.com" |}.

Definition r3_again : Recipe.data :=
  {| Recipe.recipe_id := "789ghi"; Recipe.label := "other"; Recipe.image := "www.i3.com";
     Recipe.ingredients := []; Recipe.url := "www.test3.com" |}.

Definition quoted : Recipe.data :=
  {| Recipe.recipe_id := String "q" (String dquote "1"); Recipe.label := "r4";
     Recipe.image := "www.i4.com"; Recipe.ingredients := ["i6"];
     Recipe.url := "www.test4.com" |}.

End RecipeTest.

(** ** Users for the examples *)

Module UserTest.

(** The toy digest of [TestCommon] ignores the salt. *)
Definition toy_bcrypt_hash (salt plain : string) : string := TestCommon.toy_hash plain.

Definition u4 : UserStore.register_data :=
  {| UserStore.username := "u4"; UserStore.password := "password4";
     UserStore.firstName := "U4F"; UserStore.lastName := "U4L";
     UserStore.email := "user4@user.com" |}.

Definition g5 : UserStore.google_data :=
  {| UserStore.g_firstName := "U5F"; UserStore.g_lastName := "U5L";
     UserStore.g_email := "user5@user.com"; UserStore.googleId := "456def" |}.

End UserTest.

(** * Properties *)

(** ** The store monad *)

Lemma bind_unfold {A B} (m : Query A) (k : A → Query B) (d : db) :
  (m ≫= k) d = match m d with
               | (inr a, d') => k a d'
               | (inl e, d') => (inl e, d')
               end.
Proof. reflexivity. Qed.

Lemma bind_inr {A B} (m : Query A) (k : A → Query B) d a d' :
  m d = (inr a, d') → (m ≫= k) d = k a d'.
Proof. intros H. rewrite bind_unfold, H. reflexivity. Qed.

Lemma bind_inl {A B} (m : Query A) (k : A → Query B) d e d' :
  m d = (inl e, d') → (m ≫= k) d = (inl e, d').
Proof. intros H. rewrite bind_unfold, H. reflexivity. Qed.

(** ** Shopping list store *)

Section shopping_list_store.

Import ShoppingList.

Implicit Types (d : db) (u : Z) (S N X : list string).

Lemma contained_by_spec N S :
  contained_by N S = true ↔ ∀ x, x ∈ N → x ∈ S.
Proof.
  unfold contained_by. rewrite forallb_forall. split.
  - intros H x Hx. apply list_elem_of_In in Hx.
    specialize (H x Hx). by apply bool_decide_eq_true in H.
  - intros H x Hx. apply bool_decide_eq_true, H. by apply list_elem_of_In.
Qed.

Lemma contained_by_refl X : contained_by X X = true.
Proof. by apply contained_by_spec. Qed.

Lemma contained_by_app_r X S : contained_by X (S ++ X)%list = true.
Proof.
  apply contained_by_spec. intros x Hx. apply elem_of_app. by right.
Qed.

Lemma head_users_by_id_is_Some u d :
  users_by_id u d ≠ [] → is_Some (head (users_by_id u d)).
Proof. destruct (users_by_id u d); [done | eauto]. Qed.

(** The upsert on a user who has a row. *)
Lemma insert_on_conflict_stored u N f d S :
  shopping_list d !! u = Some S →
  insert_on_conflict u N f d =
    match f S with
    | Some new => (inr (), set_shopping_list <[u := new]> d)
    | None => (inr (), d)
    end.
Proof. intros H. unfold insert_on_conflict. by rewrite H. Qed.

(** The upsert on a user who has none yet. *)
Lemma insert_on_conflict_fresh u N f d :
  shopping_list d !! u = None → users_by_id u d ≠ [] →
  insert_on_conflict u N f d = (inr (), set_shopping_list <[u := N]> d).
Proof.
  intros H Hu. unfold insert_on_conflict. rewrite H.
  by destruct (users_by_id u d).
Qed.

Lemma getUserShoppingList_stored u d S :
  shopping_list d !! u = Some S → getUserShoppingList u d = (inr S, d).
Proof. intros H. unfold getUserShoppingList. by rewrite H. Qed.

(** What [addRecipeIngredients] does for a user who has a row. *)
Lemma addRecipeIngredients_stored u N d S :
  users_by_id u d ≠ [] → shopping_list d !! u = Some S →
  addRecipeIngredients u N d =
    if contained_by N S then (inr S, d)
    else (inr (S ++ N)%list, set_shopping_list <[u := (S ++ N)%list]> d).
Proof.
  intros Hu HS. unfold addRecipeIngredients.
  destruct (head_users_by_id_is_Some u d Hu) as [r ->].
  rewrite bind_unfold, (insert_on_conflict_stored _ _ _ _ S HS).
  destruct (contained_by N S); simpl.
  - by apply getUserShoppingList_stored.
  - apply getUserShoppingList_stored. simpl. by rewrite lookup_insert_eq.
Qed.

(** What [addRecipeIngredients] does for a user who has none yet. *)
Lemma addRecipeIngredients_fresh u N d :
  users_by_id u d ≠ [] → shopping_list d !! u = None →
  addRecipeIngredients u N d = (inr N, set_shopping_list <[u := N]> d).
Proof.
  intros Hu HS. unfold addRecipeIngredients.
  destruct (head_users_by_id_is_Some u d Hu) as [r ->].
  rewrite bind_unfold, (insert_on_conflict_fresh _ _ _ _ HS Hu).
  apply getUserShoppingList_stored. simpl. by rewrite lookup_insert_eq.
Qed.

(** An unknown user: the call throws and the store is left alone. *)
Lemma addRecipeIngredients_unknown u N d :
  users_by_id u d = [] →
  addRecipeIngredients u N d =
    (inl (NotFoundError (JStr ("No user found with ID: " ++ pretty u))), d).
Proof. intros Hu. unfold addRecipeIngredients. by rewrite Hu. Qed.

Lemma users_by_id_set_shopping_list u f d :
  users_by_id u (set_shopping_list f d) = users_by_id u d.
Proof. reflexivity. Qed.

(** What [updateList] does for a known user. *)
Lemma updateList_known u N d :
  users_by_id u d ≠ [] →
  updateList u N d =
    (inr {| message := "Shopping list updated successfully." |},
     set_shopping_list <[u := N]> d).
Proof.
  intros Hu. unfold updateList. rewrite bind_unfold.
  destruct (shopping_list d !! u) as [S|] eqn:HS.
  - by rewrite (insert_on_conflict_stored _ _ _ _ S HS).
  - by rewrite (insert_on_conflict_fresh _ _ _ _ HS Hu).
Qed.

End shopping_list_store.

Section shopping_list_claims.

Import ShoppingList.

Implicit Types (d : db) (u : Z) (S N X : list string).

(** C10: for a user whose list [S] is stored, [addRecipeIngredients] with
    input [N] is all-or-nothing: when every element of [N] occurs in [S] the
    stored array stays [S], otherwise it becomes [S] followed by the whole
    of [N]; the call returns the stored array, and the rows of the other
    users are not touched. *)
Theorem addRecipeIngredients_all_or_nothing d u S N :
  users_by_id u d ≠ [] →
  shopping_list d !! u = Some S →
  let r := addRecipeIngredients u N d in
  ((∀ x, x ∈ N → x ∈ S) →
     shopping_list (store r) !! u = Some S ∧ result r = inr S) ∧
  (¬ (∀ x, x ∈ N → x ∈ S) →
     shopping_list (store r) !! u = Some (S ++ N)%list ∧ result r = inr (S ++ N)%list) ∧
  (∀ v, v ≠ u → shopping_list (store r) !! v = shopping_list d !! v).
Proof.
  intros Hu HS r. subst r. rewrite (addRecipeIngredients_stored u N d S Hu HS).
  destruct (contained_by N S) eqn:Hc.
  - pose proof (proj1 (contained_by_spec N S) Hc) as Hall.
    split_and!; [done | by intros [] | done].
  - assert (¬ (∀ x, x ∈ N → x ∈ S)) as Hn.
    { intros H. pose proof (proj2 (contained_by_spec N S) H). congruence. }
    split_and!.
    + by intros H.
    + intros _. unfold store, result; simpl. by rewrite lookup_insert_eq.
    + intros v Hv. unfold store; simpl. by rewrite lookup_insert_ne.
Qed.

(** The all-or-nothing merge at work: [N] has one element that is stored
    and one that is not, and both are appended. *)
Lemma addRecipeIngredients_all_or_nothing_witness :
  let r := addRecipeIngredients 1 ["i3"; "i9"] TestCommon.test_db in
  shopping_list (store r) !! 1 = Some ["i1"; "i2"; "i3"; "i3"; "i9"] ∧
  result r = inr ["i1"; "i2"; "i3"; "i3"; "i9"].
Proof.
  refine (proj1 (proj2 (addRecipeIngredients_all_or_nothing
    TestCommon.test_db 1 ["i1"; "i2"; "i3"] ["i3"; "i9"] _ _)) _).
  - vm_compute. discriminate.
  - vm_compute. reflexivity.
  - intros H. pose proof (proj2 (contained_by_spec _ _) H) as Hc.
    vm_compute in Hc. discriminate.
Defined.

(** C1, on the code: after [updateList(u, ["i1"])], the call
    [addRecipeIngredients(u, ["i1","i2"])] appends the whole input, so the
    stored array is ["i1","i1","i2"]: the element already present is added
    again. *)
Theorem addRecipeIngredients_readds_present d u :
  users_by_id u d ≠ [] →
  let r := (updateList u ["i1"];; addRecipeIngredients u ["i1"; "i2"]) d in
  result r = inr ["i1"; "i1"; "i2"] ∧
  shopping_list (store r) !! u = Some ["i1"; "i1"; "i2"] ∧
  result r ≠ inr ["i1"; "i2"].
Proof.
  intros Hu r. subst r.
  rewrite (bind_inr _ _ _ _ _ (updateList_known u ["i1"] d Hu)).
  rewrite (addRecipeIngredients_stored u _ _ ["i1"]).
  - simpl. unfold result, store; simpl. rewrite lookup_insert_eq. done.
  - by rewrite users_by_id_set_shopping_list.
  - simpl. by rewrite lookup_insert_eq.
Qed.

Lemma addRecipeIngredients_readds_present_witness :
  let r := (updateList 1 ["i1"];; addRecipeIngredients 1 ["i1"; "i2"])
             TestCommon.test_db in
  result r = inr ["i1"; "i1"; "i2"] ∧
  shopping_list (store r) !! 1 = Some ["i1"; "i1"; "i2"] ∧
  result r ≠ inr ["i1"; "i2"].
Proof.
  apply (addRecipeIngredients_readds_present TestCommon.test_db 1).
  vm_compute. discriminate.
Defined.

(** C5: [addRecipeIngredients] is idempotent: a second call with the same
    input leaves the store of the first call, and returns the same list (or
    throws the same error, for an unknown user). *)
Theorem addRecipeIngredients_idempotent d u X :
  (addRecipeIngredients u X;; addRecipeIngredients u X) d =
  addRecipeIngredients u X d.
Proof.
  destruct (users_by_id u d) as [|r rs] eqn:Hu.
  - rewrite (bind_inl _ _ _ _ _ (addRecipeIngredients_unknown u X d Hu)).
    by rewrite addRecipeIngredients_unknown.
  - assert (users_by_id u d ≠ []) as Hne by (by rewrite Hu).
    destruct (shopping_list d !! u) as [S|] eqn:HS.
    + rewrite (addRecipeIngredients_stored u X d S Hne HS).
      destruct (contained_by X S) eqn:Hc.
      * erewrite bind_inr by by rewrite (addRecipeIngredients_stored u X d S Hne HS), Hc.
        by rewrite (addRecipeIngredients_stored u X d S Hne HS), Hc.
      * erewrite bind_inr by by rewrite (addRecipeIngredients_stored u X d S Hne HS), Hc.
        rewrite (addRecipeIngredients_stored u X _ (S ++ X)%list).
        -- by rewrite (contained_by_app_r X S).
        -- by rewrite users_by_id_set_shopping_list.
        -- simpl. by rewrite lookup_insert_eq.
    + rewrite (bind_inr _ _ _ _ _ (addRecipeIngredients_fresh u X d Hne HS)).
      rewrite (addRecipeIngredients_stored u X _ X).
      * by rewrite contained_by_refl, (addRecipeIngredients_fresh u X d Hne HS).
      * by rewrite users_by_id_set_shopping_list.
      * simpl. by rewrite lookup_insert_eq.
Qed.

(** C6: for a known user, [updateList] resolves to its confirmation and
    leaves exactly the given array as the user's list, whatever was stored
    and without touching the other rows; after
    [addRecipeIngredients(u, ["i1","i2"])] and [updateList(u, ["i3"])],
    [getUserShoppingList(u)] returns exactly ["i3"]. *)
Theorem updateList_overwrites d u X :
  users_by_id u d ≠ [] →
  let r := updateList u X d in
  result r = inr {| message := "Shopping list updated successfully." |} ∧
  shopping_list (store r) !! u = Some X ∧
  (∀ v, v ≠ u → shopping_list (store r) !! v = shopping_list d !! v) ∧
  result (getUserShoppingList u (store r)) = inr X ∧
  result ((addRecipeIngredients u ["i1"; "i2"];; updateList u ["i3"];;
           getUserShoppingList u) d) = inr ["i3"].
Proof.
  intros Hu r. subst r. rewrite (updateList_known u X d Hu).
  unfold result, store; simpl. split_and!.
  - done.
  - by rewrite lookup_insert_eq.
  - intros v Hv. by rewrite lookup_insert_ne.
  - erewrite getUserShoppingList_stored; [done|]. simpl. by rewrite lookup_insert_eq.
  - destruct (addRecipeIngredients u ["i1"; "i2"] d) as [[e|l] d1] eqn:Hadd.
    + exfalso. destruct (shopping_list d !! u) as [S|] eqn:HS.
      * rewrite (addRecipeIngredients_stored u _ d S Hu HS) in Hadd.
        by destruct (contained_by _ S).
      * by rewrite (addRecipeIngredients_fresh u _ d Hu HS) in Hadd.
    + assert (users_by_id u d1 ≠ []) as Hu1.
      { destruct (shopping_list d !! u) as [S|] eqn:HS.
        - rewrite (addRecipeIngredients_stored u _ d S Hu HS) in Hadd.
          destruct (contained_by _ S); by simplify_eq.
        - rewrite (addRecipeIngredients_fresh u _ d Hu HS) in Hadd. by simplify_eq. }
      rewrite (bind_inr _ _ _ _ _ Hadd).
      rewrite (bind_inr _ _ _ _ _ (updateList_known u ["i3"] d1 Hu1)).
      erewrite getUserShoppingList_stored; [done|]. simpl. by rewrite lookup_insert_eq.
Qed.

Lemma updateList_overwrites_witness :
  let r := updateList 1 ["i3"] TestCommon.test_db in
  users_by_id 1 TestCommon.test_db ≠ [] ∧
  shopping_list (store r) !! 1 = Some ["i3"] ∧
  result ((addRecipeIngredients 1 ["i1"; "i2"];; updateList 1 ["i3"];;
           getUserShoppingList 1) TestCommon.test_db) = inr ["i3"].
Proof.
  assert (users_by_id 1 TestCommon.test_db ≠ []) as Hu by (vm_compute; discriminate).
  pose proof (updateList_overwrites TestCommon.test_db 1 ["i3"] Hu) as H.
  simpl in H. destruct H as (_ & H2 & _ & _ & H5). done.
Defined.

End shopping_list_claims.

(** ** User directory *)

Section user_claims.

Import User.

Variable bcrypt_compare : string → string → bool.

Implicit Types (d : db) (u : users_row).

(** The profile that a successful [authenticate] returns. *)
Lemma authenticate_row_stripped u :
  delete_prop "password" (authenticate_row u) =
    JObj [ ("user_id", JNum (user_id u));
           ("username", json_of_nullable (username u));
           ("firstName", JStr (first_name u));
           ("lastName", JStr (last_name u));
           ("email", JStr (email u)) ].
Proof. reflexivity. Qed.

(** C7: [User.authenticate] throws one and the same
    [UnauthorizedError("Invalid username/password")] when no row has the
    username and when the digest comparison fails, leaving the store as it
    was, so that the two outcomes are equal whatever the stores and inputs
    they come from; when the comparison succeeds it returns the row without
    its [password] property. *)
Theorem authenticate_folds_failures d name plain :
  let invalid := UnauthorizedError (JStr "Invalid username/password") in
  (users_by_username name d = [] →
     authenticate bcrypt_compare name plain d = (inl invalid, d)) ∧
  (∀ u hash,
     head (users_by_username name d) = Some u → password u = Some hash →
     bcrypt_compare plain hash = false →
     authenticate bcrypt_compare name plain d = (inl invalid, d)) ∧
  (∀ d' name' plain' u hash,
     users_by_username name d = [] →
     head (users_by_username name' d') = Some u → password u = Some hash →
     bcrypt_compare plain' hash = false →
     result (authenticate bcrypt_compare name plain d) =
     result (authenticate bcrypt_compare name' plain' d')) ∧
  (∀ u hash,
     head (users_by_username name d) = Some u → password u = Some hash →
     bcrypt_compare plain hash = true →
     ∃ profile,
       authenticate bcrypt_compare name plain d = (inr profile, d) ∧
       profile = JObj [ ("user_id", JNum (user_id u));
                        ("username", json_of_nullable (username u));
                        ("firstName", JStr (first_name u));
                        ("lastName", JStr (last_name u));
                        ("email", JStr (email u)) ] ∧
       get_prop "password" profile = None).
Proof.
  intros invalid.
  assert (∀ d0 n0 p0, users_by_username n0 d0 = [] →
            authenticate bcrypt_compare n0 p0 d0 = (inl invalid, d0)) as Habsent.
  { intros d0 n0 p0 H. unfold authenticate. by rewrite H. }
  assert (∀ d0 n0 p0 u hash,
            head (users_by_username n0 d0) = Some u → password u = Some hash →
            bcrypt_compare p0 hash = false →
            authenticate bcrypt_compare n0 p0 d0 = (inl invalid, d0)) as Hwrong.
  { intros d0 n0 p0 u hash Hu Hp Hc. unfold authenticate. by rewrite Hu, Hp, Hc. }
  split_and!.
  - apply Habsent.
  - apply Hwrong.
  - intros d' name' plain' u hash H0 Hu Hp Hc.
    by rewrite (Habsent _ _ _ H0), (Hwrong _ _ _ _ _ Hu Hp Hc).
  - intros u hash Hu Hp Hc. eexists. split_and!.
    + unfold authenticate. rewrite Hu, Hp, Hc. reflexivity.
    + apply authenticate_row_stripped.
    + reflexivity.
Qed.

End user_claims.

(** On the rows of the tests: an unknown username and a wrong password for
    ["u1"] give the same error, the right password gives the profile. *)
Lemma authenticate_folds_failures_witness :
  let auth := User.authenticate TestCommon.toy_compare in
  auth "nope" "password1" TestCommon.test_db
    = (inl (UnauthorizedError (JStr "Invalid username/password")), TestCommon.test_db) ∧
  auth "u1" "wrong" TestCommon.test_db
    = (inl (UnauthorizedError (JStr "Invalid username/password")), TestCommon.test_db) ∧
  ∃ profile, auth "u1" "password1" TestCommon.test_db = (inr profile, TestCommon.test_db) ∧
             get_prop "password" profile = None.
Proof.
  pose proof (authenticate_folds_failures TestCommon.toy_compare
                TestCommon.test_db "nope" "password1") as (H1 & _ & _ & _).
  pose proof (authenticate_folds_failures TestCommon.toy_compare
                TestCommon.test_db "u1" "wrong") as (_ & H2 & _ & _).
  pose proof (authenticate_folds_failures TestCommon.toy_compare
                TestCommon.test_db "u1" "password1") as (_ & _ & _ & H4).
  split_and!.
  - apply H1. reflexivity.
  - apply (H2 TestCommon.u1 (TestCommon.toy_hash "password1")); reflexivity.
  - destruct (H4 TestCommon.u1 (TestCommon.toy_hash "password1"))
      as (profile & Hp & _ & Hnone); [reflexivity .. |].
    exists profile. by split.
Defined.

(** ** Recipe store *)

Section recipe_claims.

Import Recipe.

(** C9: when a row with the given [recipe_id] is stored, [createRecipe]
    leaves the store as it is and returns the array of the sanitized input
    (label, image, stringified ingredients, url, a backslash before every
    double quote), which is not the stored row. *)
Theorem createRecipe_existing_key_echoes_input (d : db) (x : data) (row : recipes_row) :
  recipes d !! recipe_id x = Some row →
  createRecipe x d =
    (inr (JArr [ JStr (escape_quotes (label x));
                 JStr (escape_quotes (image x));
                 JStr (escape_quotes (JSON_stringify (ingredients x)));
                 JStr (escape_quotes (url x)) ]), d) ∧
  store (createRecipe x d) = d ∧
  result (createRecipe x d) ≠ inr (returning_row row).
Proof.
  intros H. unfold createRecipe. rewrite H. by split_and!.
Qed.

End recipe_claims.

(** The first recipe of the tests, created a second time. *)
Lemma createRecipe_existing_key_echoes_input_witness :
  let x := {| Recipe.recipe_id := "123abc"; Recipe.label := "r1";
              Recipe.image := "www.i1.com"; Recipe.ingredients := ["i1"; "i2"];
              Recipe.url := "www.test1.com" |} in
  let q := String backslash (String dquote EmptyString) in
  recipes TestCommon.test_db !! "123abc" = Some TestCommon.r1 ∧
  Recipe.createRecipe x TestCommon.test_db =
    (inr (JArr [ JStr "r1"; JStr "www.i1.com";
                 JStr ("[" ++ q ++ "i1" ++ q ++ "," ++ q ++ "i2" ++ q ++ "]");
                 JStr "www.test1.com" ]), TestCommon.test_db).
Proof.
  intros x q.
  assert (recipes TestCommon.test_db !! "123abc" = Some TestCommon.r1) as H
    by (vm_compute; reflexivity).
  split; [exact H|].
  exact (proj1 (createRecipe_existing_key_echoes_input TestCommon.test_db x TestCommon.r1 H)).
Defined.

(** ** Partial-update clause builder *)

Section clause_builder.

Import Sql.

Context {V : Type}.

Implicit Types (dataToUpdate : list (string * V)) (jsToSql : gmap string string).

Lemma setCols_lookup dataToUpdate jsToSql r i field v :
  sqlForPartialUpdate dataToUpdate jsToSql = inr r →
  dataToUpdate !! i = Some (field, v) →
  setCols r !! i = Some (fragment jsToSql i field) ∧ values r !! i = Some v.
Proof.
  intros Hr Hi. destruct dataToUpdate as [|kv rest] eqn:Hd; [done|].
  rewrite <- Hd in *. unfold sqlForPartialUpdate in Hr. rewrite Hd in Hr at 1.
  injection Hr as <-. cbn [setCols values]. split.
  - rewrite list_lookup_imap, Hi. reflexivity.
  - rewrite list_lookup_fmap, Hi. reflexivity.
Qed.

(** Two placeholders are the same text only when they have the same
    number. *)
Lemma placeholder_inj n m : placeholder n = placeholder m → n = m.
Proof.
  unfold placeholder. intros H. apply (inj pretty). by simplify_eq/=.
Qed.

(** C3: on a non-empty field map the clause builder returns as many
    fragments (and values) as there are fields; the fragment at position
    [i] (from 0) is ["<column> = $<i+1>"], with the remapped column name
    when the field is in the remapping table and the field's own name
    otherwise, and the value at position [i] is the field's value; on the
    empty field map it fails with EmptyInputError. *)
Theorem sqlForPartialUpdate_fragments dataToUpdate jsToSql :
  (dataToUpdate = [] →
     sqlForPartialUpdate dataToUpdate jsToSql = inl EmptyInputError) ∧
  (dataToUpdate ≠ [] →
     ∃ r, sqlForPartialUpdate dataToUpdate jsToSql = inr r ∧
          length (setCols r) = length dataToUpdate ∧
          length (values r) = length dataToUpdate ∧
          values r = dataToUpdate.*2 ∧
          ∀ i field v, dataToUpdate !! i = Some (field, v) →
            values r !! i = Some v ∧
            (∀ col, jsToSql !! field = Some col →
               setCols r !! i = Some (col ++ " = $" ++ pretty (i + 1)%nat)) ∧
            (jsToSql !! field = None →
               setCols r !! i = Some (field ++ " = $" ++ pretty (i + 1)%nat))).
Proof.
  split.
  - by intros ->.
  - intros Hne. destruct dataToUpdate as [|kv rest] eqn:Hd; [done|].
    rewrite <- Hd.
    exists {| setCols := imap (λ idx kv, fragment jsToSql idx kv.1) dataToUpdate;
              values := dataToUpdate.*2 |}.
    split; [by rewrite Hd|].
    cbn [setCols values]. split_and!.
    + by rewrite length_imap.
    + by rewrite length_fmap.
    + done.
    + intros i field v Hi. split_and!.
      * by rewrite list_lookup_fmap, Hi.
      * intros col Hcol. rewrite list_lookup_imap, Hi. simpl.
        unfold fragment, column, placeholder. rewrite Hcol.
        by rewrite Nat.add_1_r.
      * intros Hnone. rewrite list_lookup_imap, Hi. simpl.
        unfold fragment, column, placeholder. rewrite Hnone.
        by rewrite Nat.add_1_r.
Qed.

End clause_builder.

(** The table of [User.update] on a first name and an email: the first is
    remapped, the second keeps its name. *)
Lemma sqlForPartialUpdate_fragments_witness :
  Sql.sqlForPartialUpdate [("firstName", "New"); ("email", "new@user.com")] Sql.user_jsToSql
    = inr {| Sql.setCols := ["first_name = $1"; "email = $2"];
             Sql.values := ["New"; "new@user.com"] |} ∧
  Sql.sqlForPartialUpdate (@nil (string * string)) Sql.user_jsToSql = inl Sql.EmptyInputError.
Proof.
  split.
  - destruct (proj2 (sqlForPartialUpdate_fragments
      [("firstName", "New"); ("email", "new@user.com")] Sql.user_jsToSql))
      as (r & Hr & _); [discriminate|].
    rewrite Hr. vm_compute in Hr. congruence.
  - apply (proj1 (sqlForPartialUpdate_fragments (@nil (string * string)) Sql.user_jsToSql)).
    reflexivity.
Defined.

(** ** Authorization gate *)

Section gate_claims.

Import Auth.

Context {Body : Type}.

Implicit Types (req : request Body) (res : locals) (c : claims).

Lemma require_owner_cases res owner :
  match user res with
  | None => require_owner res owner = AuthenticationRequired
  | Some c =>
      (subject c = owner ∧ require_owner res owner = Pass) ∨
      (subject c ≠ owner ∧ require_owner res owner = OwnershipMismatch)
  end.
Proof.
  unfold require_owner. destruct (user res) as [c|]; [|done].
  destruct (String.eqb_spec (subject c) owner); [left | right]; done.
Qed.

(** C2: [ensureCorrectUser] passes exactly when the identity context holds
    claims whose subject identifier is, as a string, the owner identifier of
    the path; with an empty identity context the gate answers
    AuthenticationRequired, with claims whose subject differs from the path
    it answers OwnershipMismatch; either failure reaches [next] as an
    [UnauthorizedError]. *)
Theorem ensureCorrectUser_passes_iff req res :
  (ensureCorrectUser req res = None ↔
     ∃ c, user res = Some c ∧ subject c = params_user_id req) ∧
  (user res = None →
     require_owner res (params_user_id req) = AuthenticationRequired ∧
     ensureCorrectUser req res = Some (UnauthorizedError (JStr "Unauthorized"))) ∧
  (∀ c, user res = Some c → subject c ≠ params_user_id req →
     require_owner res (params_user_id req) = OwnershipMismatch ∧
     ensureCorrectUser req res = Some (UnauthorizedError (JStr "Unauthorized"))).
Proof.
  pose proof (require_owner_cases res (params_user_id req)) as Hcases.
  unfold ensureCorrectUser. split_and!.
  - split.
    + intros Hnext. destruct (user res) as [c|] eqn:Hu.
      * destruct Hcases as [[Heq _]|[_ Hg]]; [by exists c|].
        by rewrite Hg in Hnext.
      * by rewrite Hcases in Hnext.
    + intros (c & Hu & Heq). rewrite Hu in Hcases.
      destruct Hcases as [[_ Hg]|[Hne _]]; [by rewrite Hg | done].
  - intros Hu. rewrite Hu in Hcases. by rewrite Hcases.
  - intros c Hu Hne. rewrite Hu in Hcases.
    destruct Hcases as [[Heq _]|[_ Hg]]; [done | by rewrite Hg].
Qed.

End gate_claims.

(** The three tests of [ensureCorrectUser]: claims ["0"] on path ["0"], claims
    ["0"] on path ["NaN"], no claims on path ["0"]. *)
Lemma ensureCorrectUser_passes_iff_witness :
  let test := {| Auth.firstName := "test"; Auth.user_id := Auth.IdStr "0"; Auth.iat := 0 |} in
  let req p := {| Auth.headers_authorization := None; Auth.params_user_id := p;
                  Auth.body := () |} in
  Auth.ensureCorrectUser (req "0") {| Auth.user := Some test |} = None ∧
  Auth.require_owner {| Auth.user := Some test |} "NaN" = Auth.OwnershipMismatch ∧
  Auth.require_owner {| Auth.user := None |} "0" = Auth.AuthenticationRequired.
Proof.
  intros test req. split_and!.
  - apply (proj1 (ensureCorrectUser_passes_iff (req "0") {| Auth.user := Some test |})).
    by exists test.
  - apply (proj2 (proj2 (ensureCorrectUser_passes_iff (req "NaN")
             {| Auth.user := Some test |})) test); [reflexivity | discriminate].
  - apply (proj1 (proj2 (ensureCorrectUser_passes_iff (req "0") {| Auth.user := None |}))).
    reflexivity.
Defined.

(** The comparison is on the text: a path that reads as the same number but
    is written differently does not match. *)
Example require_owner_no_numeric_coercion :
  let u1 := {| Auth.firstName := "U1F"; Auth.user_id := Auth.IdNum 1; Auth.iat := 0 |} in
  Auth.require_owner {| Auth.user := Some u1 |} "1" = Auth.Pass ∧
  Auth.require_owner {| Auth.user := Some u1 |} "01" = Auth.OwnershipMismatch ∧
  Auth.require_owner {| Auth.user := Some u1 |} "1.0" = Auth.OwnershipMismatch ∧
  Auth.require_owner {| Auth.user := Some u1 |} " 1" = Auth.OwnershipMismatch.
Proof. by vm_compute. Qed.

(** ** Credential verifier *)

Section verifier_claims.

Import Auth.

Context {Body : Type}.

Variable jwt_verify : string → option claims.

Implicit Types (req : request Body) (res : locals) (c : claims).

(** C4: [authenticateJWT] always continues without an error; with no
    authorization header, or with a token that fails verification, the
    identity context is left as it was; starting from an empty identity
    context, it ends up holding claims [c] exactly when the header carries a
    bearer token that verifies to [c]. *)
Theorem authenticateJWT_never_rejects req res :
  let out := authenticateJWT jwt_verify req res in
  out.2 = None ∧
  (headers_authorization req = None → out.1 = res) ∧
  (∀ h token, headers_authorization req = Some h → bearer_token h = Some token →
     jwt_verify token = None → out.1 = res) ∧
  (user res = None →
     ∀ c, user out.1 = Some c ↔
          ∃ h token, headers_authorization req = Some h ∧
                     bearer_token h = Some token ∧ jwt_verify token = Some c).
Proof.
  unfold authenticateJWT. split_and!.
  - destruct (headers_authorization req) as [h|]; [|done].
    destruct (bearer_token h) as [token|]; [|done].
    by destruct (jwt_verify token).
  - by intros ->.
  - intros h token -> Ht Hv. by rewrite Ht, Hv.
  - intros Hres c. split.
    + destruct (headers_authorization req) as [h|]; simpl; [|congruence].
      destruct (bearer_token h) as [token|] eqn:Ht; simpl; [|congruence].
      destruct (jwt_verify token) as [c'|] eqn:Hv; simpl; [|congruence].
      intros [= ->]. by exists h, token.
    + intros (h & token & -> & Ht & Hv). by rewrite Ht, Hv.
Qed.

End verifier_claims.

(** The three tests of [authenticateJWT]: a token signed with the secret
    key, no header, a token signed with another key. *)
Lemma authenticateJWT_never_rejects_witness :
  let run (req : Auth.request unit) :=
    Auth.authenticateJWT AuthTest.toy_verify req Auth.empty_locals in
  run (AuthTest.bearer_request AuthTest.testJwt "0" ())
    = ({| Auth.user := Some AuthTest.test_payload |}, None) ∧
  run (AuthTest.anonymous_request "0" ()) = (Auth.empty_locals, None) ∧
  run (AuthTest.bearer_request AuthTest.badJwt "0" ()) = (Auth.empty_locals, None).
Proof.
  intros run.
  pose proof (λ req : Auth.request unit,
                authenticateJWT_never_rejects AuthTest.toy_verify req Auth.empty_locals)
    as H.
  split_and!.
  - specialize (H (AuthTest.bearer_request AuthTest.testJwt "0" ())).
    destruct H as (Hnext & _ & _ & Huser).
    specialize (Huser eq_refl AuthTest.test_payload).
    unfold run. destruct (Auth.authenticateJWT _ _ _) as [[u] err]. simpl in *.
    f_equal; [|done]. f_equal. apply Huser.
    exists ("Bearer " ++ AuthTest.testJwt), AuthTest.testJwt. by vm_compute.
  - specialize (H (AuthTest.anonymous_request "0" ())).
    destruct H as (Hnext & Hnone & _ & _). specialize (Hnone eq_refl).
    unfold run. destruct (Auth.authenticateJWT _ _ _) as [l err]. simpl in *.
    by subst.
  - specialize (H (AuthTest.bearer_request AuthTest.badJwt "0" ())).
    destruct H as (Hnext & _ & Hbad & _).
    specialize (Hbad ("Bearer " ++ AuthTest.badJwt) AuthTest.badJwt eq_refl eq_refl eq_refl).
    unfold run. destruct (Auth.authenticateJWT _ _ _) as [l err]. simpl in *.
    by subst.
Defined.

(** ** PATCH /shopping/:user_id *)

Section patch_shopping.

Import Auth Routes.

Variable shoppingSchema_errors : shopping_body → list string.

Implicit Types (req : request shopping_body) (res : locals) (d : db).

(** What the PATCH route answers when every check passes. *)
Lemma patch_user_id_success req res d userId :
  ensureCorrectUser req res = None →
  Js.parseInt (params_user_id req) = Some userId →
  shoppingSchema_errors (body req) = [] →
  users_by_id userId d ≠ [] →
  patch_user_id shoppingSchema_errors req res d =
    ({| statusCode := 200;
        resp_body := JObj [ ("list",
          JObj [ ("message", JStr "Shopping list updated successfully.") ]) ] |},
     set_shopping_list <[userId := ingredients (body req)]> d).
Proof.
  intros Hgate Hid Hvalid Hu. unfold patch_user_id.
  rewrite Hgate, Hid, Hvalid.
  by rewrite (updateList_known userId _ d Hu).
Qed.

(** What the sibling POST route answers when every check passes: the list
    itself. *)
Lemma post_user_id_success req res d userId :
  ensureCorrectUser req res = None →
  Js.parseInt (params_user_id req) = Some userId →
  shoppingSchema_errors (body req) = [] →
  users_by_id userId d ≠ [] →
  ∃ list d',
    ShoppingList.addRecipeIngredients userId (ingredients (body req)) d = (inr list, d') ∧
    post_user_id shoppingSchema_errors req res d =
      ({| statusCode := 200;
          resp_body := JObj [ ("list", JArr (JStr <$> list)) ] |}, d').
Proof.
  intros Hgate Hid Hvalid Hu. unfold post_user_id.
  rewrite Hgate, Hid, Hvalid.
  destruct (shopping_list d !! userId) as [S|] eqn:HS.
  - rewrite (addRecipeIngredients_stored userId _ d S Hu HS).
    destruct (ShoppingList.contained_by _ S); eauto.
  - rewrite (addRecipeIngredients_fresh userId _ d Hu HS). eauto.
Qed.

(** C8, on the code: a PATCH by the owner, with a numeric path id and a
    valid body, is answered 200 with the confirmation object of
    [updateList] under [list], and not with the ingredient array. *)
Theorem patch_user_id_answers_confirmation req res d userId :
  ensureCorrectUser req res = None →
  Js.parseInt (params_user_id req) = Some userId →
  shoppingSchema_errors (body req) = [] →
  users_by_id userId d ≠ [] →
  let resp := (patch_user_id shoppingSchema_errors req res d).1 in
  statusCode resp = 200 ∧
  get_prop "list" (resp_body resp)
    = Some (JObj [ ("message", JStr "Shopping list updated successfully.") ]) ∧
  get_prop "list" (resp_body resp) ≠ Some (JArr (JStr <$> ingredients (body req))).
Proof.
  intros Hgate Hid Hvalid Hu.
  rewrite (patch_user_id_success req res d userId Hgate Hid Hvalid Hu).
  by split_and!.
Qed.

End patch_shopping.

(** User 1 of the tests replaces the list by ["i3"], through the whole
    application. *)
Lemma patch_user_id_answers_confirmation_witness :
  let req := AuthTest.bearer_request AuthTest.u1Token "1"
               {| Routes.ingredients := ["i3"] |} in
  let out := Routes.app_patch_shopping (λ _, []) AuthTest.toy_verify req TestCommon.test_db in
  out.1 = {| Routes.statusCode := 200;
             Routes.resp_body := JObj [ ("list",
               JObj [ ("message", JStr "Shopping list updated successfully.") ]) ] |} ∧
  shopping_list out.2 !! 1 = Some ["i3"] ∧
  get_prop "list" (Routes.resp_body out.1) ≠ Some (JArr [JStr "i3"]).
Proof.
  intros req out.
  pose proof (patch_user_id_answers_confirmation (λ _, []) req
                {| Auth.user := Some AuthTest.u1_payload |} TestCommon.test_db 1
                eq_refl eq_refl eq_refl) as H.
  assert (users_by_id 1 TestCommon.test_db ≠ []) as Hu by (vm_compute; discriminate).
  specialize (H Hu). destruct H as (_ & _ & Hne).
  split_and!.
  - by vm_compute.
  - by vm_compute.
  - exact Hne.
Defined.

(** * Further properties of the models *)

(** ** Shopping list store, continued *)

Section shopping_list_more.

Import ShoppingList Constraints.

Implicit Types (d : db) (u : Z) (S N X Y L : list string).

Lemma addRecipeIngredients_users u N d :
  users (store (addRecipeIngredients u N d)) = users d.
Proof.
  destruct (users_by_id u d) as [|r rs] eqn:Hu.
  - by rewrite addRecipeIngredients_unknown.
  - assert (users_by_id u d ≠ []) as Hne by (by rewrite Hu).
    destruct (shopping_list d !! u) as [S|] eqn:HS.
    + rewrite (addRecipeIngredients_stored u N d S Hne HS).
      by destruct (contained_by N S).
    + by rewrite (addRecipeIngredients_fresh u N d Hne HS).
Qed.

Lemma users_by_id_same_users v d d' :
  users d' = users d → users_by_id v d' = users_by_id v d.
Proof. unfold users_by_id. by intros ->. Qed.

(** What [updateList] does when the user has no row in [users] and no list:
    the foreign key rejects the insert. *)
Lemma updateList_unknown u N d :
  users_by_id u d = [] → shopping_list d !! u = None →
  ∃ m, updateList u N d = (inl (DatabaseError m), d).
Proof.
  intros Hu HS. unfold updateList. rewrite bind_unfold.
  unfold insert_on_conflict. rewrite HS, Hu. eauto.
Qed.

(** X1: both writers keep the foreign key of [shopping_list]: when every
    list belongs to a row of [users] before [addRecipeIngredients] or
    [updateList], whatever their arguments and outcome, it does after. *)
Theorem shopping_list_writers_keep_foreign_key d u N :
  fk_user_shopping_list d →
  fk_user_shopping_list (store (addRecipeIngredients u N d)) ∧
  fk_user_shopping_list (store (updateList u N d)).
Proof.
  intros Hfk. split.
  - intros v Hv.
    rewrite (users_by_id_same_users v d _ (addRecipeIngredients_users u N d)).
    destruct (users_by_id u d) as [|r rs] eqn:Hu.
    + rewrite (addRecipeIngredients_unknown u N d Hu) in Hv. by apply Hfk.
    + assert (users_by_id u d ≠ []) as Hne by (by rewrite Hu).
      destruct (decide (v = u)) as [->|Hvu]; [done|].
      apply Hfk. destruct (shopping_list d !! u) as [S|] eqn:HS.
      * rewrite (addRecipeIngredients_stored u N d S Hne HS) in Hv.
        destruct (contained_by N S); [done|].
        unfold store in Hv; simpl in Hv. by rewrite lookup_insert_ne in Hv.
      * rewrite (addRecipeIngredients_fresh u N d Hne HS) in Hv.
        unfold store in Hv; simpl in Hv. by rewrite lookup_insert_ne in Hv.
  - intros v Hv. destruct (users_by_id u d) as [|r rs] eqn:Hu.
    + destruct (shopping_list d !! u) as [S|] eqn:HS.
      * exfalso. by apply (Hfk u); [rewrite HS|].
      * destruct (updateList_unknown u N d Hu HS) as [m Hm].
        rewrite Hm in Hv |- *. by apply Hfk.
    + assert (users_by_id u d ≠ []) as Hne by (by rewrite Hu).
      rewrite (updateList_known u N d Hne) in Hv |- *.
      unfold store in *; simpl in *. rewrite users_by_id_set_shopping_list.
      destruct (decide (v = u)) as [->|Hvu]; [done|].
      apply Hfk. by rewrite lookup_insert_ne in Hv.
Qed.

Lemma test_db_foreign_key : fk_user_shopping_list TestCommon.test_db.
Proof.
  intros v [S Hv]. destruct (decide (v = 1)) as [->|Hne].
  - vm_compute. discriminate.
  - unfold TestCommon.test_db in Hv; simpl in Hv.
    rewrite lookup_insert_ne in Hv by done. by rewrite lookup_empty in Hv.
Defined.

Lemma shopping_list_writers_keep_foreign_key_witness :
  fk_user_shopping_list TestCommon.test_db ∧
  fk_user_shopping_list (store (addRecipeIngredients 7 ["i1"] TestCommon.test_db)) ∧
  fk_user_shopping_list (store (updateList 7 ["i1"] TestCommon.test_db)).
Proof.
  split; [exact test_db_foreign_key|].
  exact (shopping_list_writers_keep_foreign_key TestCommon.test_db 7 ["i1"]
           test_db_foreign_key).
Defined.

(** X2: [addRecipeIngredients] only ever appends: whatever the input and the
    outcome, the array stored before the call is a prefix of the array
    stored after it, so no ingredient is removed or moved. *)
Theorem addRecipeIngredients_keeps_prefix d u v S N :
  shopping_list d !! v = Some S →
  ∃ T, shopping_list (store (addRecipeIngredients u N d)) !! v = Some (S ++ T)%list.
Proof.
  intros HS. destruct (users_by_id u d) as [|r rs] eqn:Hu.
  - rewrite (addRecipeIngredients_unknown u N d Hu). exists []. by rewrite app_nil_r.
  - assert (users_by_id u d ≠ []) as Hne by (by rewrite Hu).
    destruct (decide (v = u)) as [->|Hvu].
    + rewrite (addRecipeIngredients_stored u N d S Hne HS).
      destruct (contained_by N S).
      * exists []. by rewrite app_nil_r.
      * exists N. unfold store; simpl. by rewrite lookup_insert_eq.
    + exists []. rewrite app_nil_r.
      destruct (shopping_list d !! u) as [S'|] eqn:HS'.
      * rewrite (addRecipeIngredients_stored u N d S' Hne HS').
        destruct (contained_by N S'); [done|].
        unfold store; simpl. by rewrite lookup_insert_ne.
      * rewrite (addRecipeIngredients_fresh u N d Hne HS').
        unfold store; simpl. by rewrite lookup_insert_ne.
Qed.

Lemma addRecipeIngredients_keeps_prefix_witness :
  ∃ T, shopping_list (store (addRecipeIngredients 1 ["i9"] TestCommon.test_db)) !! 1
       = Some (["i1"; "i2"; "i3"] ++ T)%list.
Proof.
  apply (addRecipeIngredients_keeps_prefix TestCommon.test_db 1 1 ["i1"; "i2"; "i3"] ["i9"]).
  by vm_compute.
Defined.

(** X3: when [addRecipeIngredients] returns a list, that list is the array
    now stored for the user and every ingredient of the input occurs in
    it. *)
Theorem addRecipeIngredients_result_covers_input d u N L :
  result (addRecipeIngredients u N d) = inr L →
  shopping_list (store (addRecipeIngredients u N d)) !! u = Some L ∧
  ∀ x, x ∈ N → x ∈ L.
Proof.
  destruct (users_by_id u d) as [|r rs] eqn:Hu.
  { by rewrite (addRecipeIngredients_unknown u N d Hu). }
  assert (users_by_id u d ≠ []) as Hne by (by rewrite Hu).
  destruct (shopping_list d !! u) as [S|] eqn:HS.
  - rewrite (addRecipeIngredients_stored u N d S Hne HS).
    destruct (contained_by N S) eqn:Hc; unfold result, store; simpl; intros [= <-].
    + split; [done|]. by apply contained_by_spec.
    + rewrite lookup_insert_eq. split; [done|].
      intros x Hx. apply elem_of_app. by right.
  - rewrite (addRecipeIngredients_fresh u N d Hne HS).
    unfold result, store; simpl; intros [= <-].
    by rewrite lookup_insert_eq.
Qed.

Lemma addRecipeIngredients_result_covers_input_witness :
  shopping_list (store (addRecipeIngredients 1 ["i3"; "i9"] TestCommon.test_db)) !! 1
    = Some ["i1"; "i2"; "i3"; "i3"; "i9"] ∧
  ∀ x, x ∈ ["i3"; "i9"] → x ∈ ["i1"; "i2"; "i3"; "i3"; "i9"].
Proof.
  apply (addRecipeIngredients_result_covers_input TestCommon.test_db 1 ["i3"; "i9"]).
  by vm_compute.
Defined.

(** X4: the first [addRecipeIngredients] of a known user who has no list yet
    stores the input as it is and returns it: nothing is compared, so an
    ingredient that occurs twice in the input is stored twice. *)
Theorem addRecipeIngredients_first_call_verbatim d u N :
  users_by_id u d ≠ [] → shopping_list d !! u = None →
  result (addRecipeIngredients u N d) = inr N ∧
  shopping_list (store (addRecipeIngredients u N d)) !! u = Some N ∧
  (∀ v, v ≠ u →
     shopping_list (store (addRecipeIngredients u N d)) !! v = shopping_list d !! v).
Proof.
  intros Hu HS. rewrite (addRecipeIngredients_fresh u N d Hu HS).
  unfold result, store; simpl. split_and!; [done | by rewrite lookup_insert_eq |].
  intros v Hv. by rewrite lookup_insert_ne.
Qed.

Lemma addRecipeIngredients_first_call_verbatim_witness :
  result (addRecipeIngredients 1 ["i1"; "i1"] TestCommon.no_list_db) = inr ["i1"; "i1"] ∧
  shopping_list (store (addRecipeIngredients 1 ["i1"; "i1"] TestCommon.no_list_db)) !! 1
    = Some ["i1"; "i1"].
Proof.
  destruct (addRecipeIngredients_first_call_verbatim TestCommon.no_list_db 1 ["i1"; "i1"])
    as (H1 & H2 & _).
  - vm_compute. discriminate.
  - by vm_compute.
  - by split.
Defined.

(** X5: [updateList] is last-writer-wins: for a known user, two calls in a
    row leave the store that the second call alone would leave. *)
Theorem updateList_last_write_wins d u X Y :
  users_by_id u d ≠ [] →
  store ((updateList u X;; updateList u Y) d) = store (updateList u Y d).
Proof.
  intros Hu.
  rewrite (bind_inr _ _ _ _ _ (updateList_known u X d Hu)).
  rewrite !updateList_known by done.
  unfold store, set_shopping_list; simpl. by rewrite insert_insert_eq.
Qed.

Lemma updateList_last_write_wins_witness :
  store ((updateList 1 ["a"];; updateList 1 ["b"]) TestCommon.test_db)
    = store (updateList 1 ["b"] TestCommon.test_db).
Proof.
  apply (updateList_last_write_wins TestCommon.test_db 1 ["a"] ["b"]).
  vm_compute. discriminate.
Defined.

End shopping_list_more.

(** ** Recipe store, continued *)

Section recipe_more.

Import Recipe.

Implicit Types (d : db) (x y : data) (s : string).

Lemma escape_quotes_length s :
  (String.length s ≤ String.length (escape_quotes s))%nat.
Proof. induction s as [|c s IH]; simpl; [lia|]. destruct (Ascii.eqb c dquote); simpl; lia. Qed.

Lemma escape_quotes_fixes_iff s :
  escape_quotes s = s ↔ occurs dquote s = false.
Proof.
  induction s as [|c s IH]; simpl; [done|].
  destruct (Ascii.eqb_spec c dquote) as [->|Hc]; simpl.
  - split; [|done]. intros H. exfalso.
    assert (String.length (String backslash (String dquote (escape_quotes s)))
            = String.length (String dquote s)) as Hlen by (by rewrite H).
    simpl in Hlen. pose proof (escape_quotes_length s). lia.
  - rewrite <- IH. split; [by intros [= ->] | by intros ->].
Qed.

(** X6: [sanitize] leaves a string as it is exactly when the string has no
    double quote. *)
Theorem sanitize_fixes_iff_no_quote s :
  sanitize s = s ↔ occurs dquote s = false.
Proof. exact (escape_quotes_fixes_iff s). Qed.

Lemma createRecipe_fresh d x :
  recipes d !! recipe_id x = None →
  recipes d !! sanitize (recipe_id x) = None →
  createRecipe x d =
    (inr (JObj [ ("label", JStr (sanitize (label x)));
                 ("image", JStr (sanitize (image x)));
                 ("ingredients", JArr (JStr <$> ingredients x));
                 ("url", JStr (sanitize (url x))) ]),
     set_recipes <[sanitize (recipe_id x) :=
       {| Schema.label := sanitize (label x);
          Schema.image := Some (sanitize (image x));
          Schema.ingredients := ingredients x;
          Schema.url := Some (sanitize (url x)) |}]> d).
Proof.
  intros Hraw Hsan. unfold createRecipe, insert_recipe. by rewrite Hraw, Hsan.
Qed.

(** X7: a recipe created under a key that is not stored, neither as given
    nor sanitized, can be read back: [getRecipe] on the sanitized key
    returns the row that [createRecipe] returned, with the sanitized label,
    image and url and the ingredients as given. *)
Theorem createRecipe_then_getRecipe d x :
  recipes d !! recipe_id x = None →
  recipes d !! sanitize (recipe_id x) = None →
  ∃ row d',
    createRecipe x d = (inr row, d') ∧
    getRecipe (sanitize (recipe_id x)) d' = (inr row, d') ∧
    get_prop "label" row = Some (JStr (sanitize (label x))) ∧
    get_prop "ingredients" row = Some (JArr (JStr <$> ingredients x)).
Proof.
  intros Hraw Hsan. rewrite (createRecipe_fresh d x Hraw Hsan).
  eexists _, _. split; [reflexivity|]. split_and!; [|done..].
  unfold getRecipe; simpl. by rewrite lookup_insert_eq.
Qed.

(** X8: [createRecipe] never overwrites: whatever its argument and outcome,
    every row stored before the call is stored unchanged after it. *)
Theorem createRecipe_keeps_stored_rows d x key row :
  recipes d !! key = Some row →
  recipes (store (createRecipe x d)) !! key = Some row.
Proof.
  intros Hrow. unfold createRecipe.
  destruct (recipes d !! recipe_id x) as [r|] eqn:Hraw; [done|].
  unfold insert_recipe.
  destruct (recipes d !! sanitize (recipe_id x)) as [r|] eqn:Hsan; [done|].
  unfold store; simpl. rewrite lookup_insert_ne; [done|]. congruence.
Qed.

(** X9: a key with a double quote is never found again by the duplicate
    check.  The row is stored under the sanitized key while the check reads
    the key as given, so after a successful first creation a second
    [createRecipe] with the same key is rejected by the primary key and
    throws the driver's error instead of returning the sanitized input; the
    store is left as the first call left it. *)
Theorem createRecipe_quoted_key_throws_on_second_call d x y :
  occurs dquote (recipe_id x) = true →
  recipe_id y = recipe_id x →
  recipes d !! recipe_id x = None →
  recipes d !! sanitize (recipe_id x) = None →
  ∃ m, (createRecipe x;; createRecipe y) d
       = (inl (DatabaseError m), store (createRecipe x d)).
Proof.
  intros Hq Hy Hraw Hsan.
  assert (sanitize (recipe_id x) ≠ recipe_id x) as Hne.
  { intros H. apply escape_quotes_fixes_iff in H. congruence. }
  rewrite (bind_inr _ _ _ _ _ (createRecipe_fresh d x Hraw Hsan)).
  rewrite (createRecipe_fresh d x Hraw Hsan). unfold store; simpl.
  unfold createRecipe, insert_recipe; simpl. rewrite Hy.
  rewrite lookup_insert_ne by done. rewrite Hraw, lookup_insert_eq. eauto.
Qed.

(** X10: with a key that has no double quote, creating twice is creating
    once: the second [createRecipe] with that key, whatever its other
    fields, leaves the store of the first and returns its own sanitized
    input. *)
Theorem createRecipe_quote_free_key_first_wins d x y :
  occurs dquote (recipe_id x) = false →
  recipe_id y = recipe_id x →
  recipes d !! recipe_id x = None →
  (createRecipe x;; createRecipe y) d
    = (inr (sanitized_echo y), store (createRecipe x d)).
Proof.
  intros Hq Hy Hraw.
  assert (sanitize (recipe_id x) = recipe_id x) as Heq
    by (by apply escape_quotes_fixes_iff).
  assert (recipes d !! sanitize (recipe_id x) = None) as Hsan by (by rewrite Heq).
  rewrite (bind_inr _ _ _ _ _ (createRecipe_fresh d x Hraw Hsan)).
  rewrite (createRecipe_fresh d x Hraw Hsan). unfold store; simpl.
  unfold createRecipe; simpl. by rewrite Hy, Heq, lookup_insert_eq.
Qed.

End recipe_more.

Lemma createRecipe_then_getRecipe_witness :
  ∃ row d',
    Recipe.createRecipe RecipeTest.r3 TestCommon.test_db = (inr row, d') ∧
    Recipe.getRecipe "789ghi" d' = (inr row, d') ∧
    get_prop "label" row = Some (JStr "r3") ∧
    get_prop "ingredients" row = Some (JArr [JStr "i5"]).
Proof.
  apply (createRecipe_then_getRecipe TestCommon.test_db RecipeTest.r3); by vm_compute.
Defined.

Lemma createRecipe_keeps_stored_rows_witness :
  recipes (store (Recipe.createRecipe RecipeTest.r3 TestCommon.test_db)) !! "123abc"
    = Some TestCommon.r1.
Proof.
  apply (createRecipe_keeps_stored_rows TestCommon.test_db RecipeTest.r3).
  by vm_compute.
Defined.

Lemma createRecipe_quoted_key_throws_on_second_call_witness :
  ∃ m, (Recipe.createRecipe RecipeTest.quoted;; Recipe.createRecipe RecipeTest.quoted)
         TestCommon.test_db
       = (inl (DatabaseError m),
          store (Recipe.createRecipe RecipeTest.quoted TestCommon.test_db)).
Proof.
  apply (createRecipe_quoted_key_throws_on_second_call TestCommon.test_db
           RecipeTest.quoted RecipeTest.quoted); by vm_compute.
Defined.

Lemma createRecipe_quote_free_key_first_wins_witness :
  (Recipe.createRecipe RecipeTest.r3;; Recipe.createRecipe RecipeTest.r3_again)
    TestCommon.test_db
  = (inr (Recipe.sanitized_echo RecipeTest.r3_again),
     store (Recipe.createRecipe RecipeTest.r3 TestCommon.test_db)).
Proof.
  apply (createRecipe_quote_free_key_first_wins TestCommon.test_db
           RecipeTest.r3 RecipeTest.r3_again); by vm_compute.
Defined.

(** ** [parseInt] *)

Section parseInt_decimal.

Import Js.

Lemma digit_value_pretty_N_char (k : N) :
  (k < 10)%N → digit_value 10 (pretty_N_char k) = Some (Z.of_N k).
Proof.
  intros Hk.
  assert (k = 0 ∨ k = 1 ∨ k = 2 ∨ k = 3 ∨ k = 4 ∨ k = 5 ∨ k = 6 ∨ k = 7 ∨ k = 8 ∨ k = 9)%N
    as Hcases by lia.
  by repeat (destruct Hcases as [->|Hcases]; [reflexivity|]); subst.
Qed.

(** Reading the digits that [pretty] writes in front of [s]. *)
Lemma parse_digits_pretty_N_go (x : N) (s : string) :
  (0 < x)%N →
  parse_digits 10 None (pretty_N_go x s) = parse_digits 10 (Some (Z.of_N x)) s.
Proof.
  revert s. induction (N.lt_wf_0 x) as [x _ IH]. intros s Hx.
  rewrite pretty_N_go_step by done.
  assert (x `mod` 10 < 10)%N as Hmod by (apply N.mod_lt; lia).
  pose proof (N.div_mod x 10 ltac:(lia)) as Hdm.
  destruct (decide (x `div` 10 = 0)%N) as [Hz|Hnz].
  - rewrite Hz, pretty_N_go_0. simpl.
    rewrite (digit_value_pretty_N_char _ Hmod). simpl.
    f_equal. f_equal. lia.
  - rewrite IH; [|apply N.div_lt; lia|lia]. simpl.
    rewrite (digit_value_pretty_N_char _ Hmod). simpl.
    f_equal. f_equal. lia.
Qed.

(** The text that [pretty] writes for a positive number starts with a digit
    from 1 to 9. *)
Lemma pretty_N_go_leading_digit (x : N) (s : string) :
  (0 < x)%N →
  ∃ k rest, (0 < k < 10)%N ∧ pretty_N_go x s = String (pretty_N_char k) rest.
Proof.
  revert s. induction (N.lt_wf_0 x) as [x _ IH]. intros s Hx.
  rewrite pretty_N_go_step by done.
  destruct (decide (x `div` 10 = 0)%N) as [Hz|Hnz].
  - rewrite Hz, pretty_N_go_0. exists (x `mod` 10)%N, s. split; [|done].
    assert (x `mod` 10 < 10)%N by (apply N.mod_lt; lia).
    pose proof (N.div_mod x 10 ltac:(lia)). lia.
  - apply IH; [apply N.div_lt; lia | by apply N.neq_0_lt_0].
Qed.

Lemma parseInt_leading_digit (k : N) (rest : string) :
  (0 < k < 10)%N →
  parseInt (String (pretty_N_char k) rest)
    = parse_digits 10 None (String (pretty_N_char k) rest) ∧
  parseInt (String "-" (String (pretty_N_char k) rest))
    = Z.opp <$> parse_digits 10 None (String (pretty_N_char k) rest).
Proof.
  intros Hk.
  assert (k = 1 ∨ k = 2 ∨ k = 3 ∨ k = 4 ∨ k = 5 ∨ k = 6 ∨ k = 7 ∨ k = 8 ∨ k = 9)%N
    as Hcases by lia.
  assert (∀ o : option Z,
            match o with Some n => Some (1 * n) | None => None end = o ∧
            match o with Some n => Some (-1 * n) | None => None end = Z.opp <$> o) as Hsign.
  { intros [n|]; simpl; [|done]. split; f_equal; lia. }
  destruct Hcases as [->|[->|[->|[->|[->|[->|[->|[->| ->]]]]]]]];
    unfold parseInt; lazy -[Z.mul Z.add Z.opp parse_digits fmap]; apply Hsign.
Qed.

(** [parseInt] reads back every integer from its decimal text. *)
Lemma parseInt_pretty (n : Z) : parseInt (pretty n) = Some n.
Proof.
  destruct n as [|p|p].
  - reflexivity.
  - change (pretty (Z.pos p)) with (pretty (N.pos p)).
    unfold pretty, pretty_N. destruct (decide (N.pos p = 0%N)) as [|_]; [done|].
    destruct (pretty_N_go_leading_digit (N.pos p) "" ltac:(lia)) as (k & rest & Hk & Heq).
    pose proof (parse_digits_pretty_N_go (N.pos p) "" ltac:(lia)) as Hparse.
    rewrite Heq in Hparse |- *.
    rewrite (proj1 (parseInt_leading_digit k rest Hk)), Hparse. reflexivity.
  - change (pretty (Z.neg p)) with ("-" +:+ pretty (N.pos p)).
    unfold pretty, pretty_N. destruct (decide (N.pos p = 0%N)) as [|_]; [done|].
    destruct (pretty_N_go_leading_digit (N.pos p) "" ltac:(lia)) as (k & rest & Hk & Heq).
    pose proof (parse_digits_pretty_N_go (N.pos p) "" ltac:(lia)) as Hparse.
    rewrite Heq in Hparse |- *.
    change ("-" +:+ String (pretty_N_char k) rest)
      with (String "-" (String (pretty_N_char k) rest)).
    rewrite (proj2 (parseInt_leading_digit k rest Hk)), Hparse. reflexivity.
Qed.

End parseInt_decimal.

Section parseInt_lenient.

Import Js.



End parseInt_lenient.

(** Where the claims that [authenticateJWT] leaves in an empty identity
    context come from. *)
Lemma authenticateJWT_user {Body} (jwt_verify : string → option Auth.claims)
    (req : Auth.request Body) :
  ∀ c, Auth.user (Auth.authenticateJWT jwt_verify req Auth.empty_locals).1 = Some c →
       ∃ h token, Auth.headers_authorization req = Some h ∧
                  Auth.bearer_token h = Some token ∧ jwt_verify token = Some c.
Proof.
  intros c. unfold Auth.authenticateJWT.
  destruct (Auth.headers_authorization req) as [h|]; simpl; [|done].
  destruct (Auth.bearer_token h) as [token|] eqn:Ht; simpl; [|done].
  destruct (jwt_verify token) as [c'|] eqn:Hv; simpl; [|done].
  intros [= ->]. by exists h, token.
Qed.

(** ** Shopping routes *)

Section shopping_routes.

Import Auth Routes.

Variable shoppingSchema_errors : shopping_body → list string.

Implicit Types (req : request shopping_body) (res : locals) (d : db) (v : Z).

Lemma updateList_frame u N d :
  let d' := store (ShoppingList.updateList u N d) in
  users d' = users d ∧ recipes d' = recipes d ∧ recipes_users d' = recipes_users d ∧
  ∀ v, v ≠ u → shopping_list d' !! v = shopping_list d !! v.
Proof.
  unfold ShoppingList.updateList. rewrite bind_unfold.
  unfold ShoppingList.insert_on_conflict.
  destruct (shopping_list d !! u) as [S|]; simpl.
  - unfold store; simpl. split_and!; [done..|]. intros v Hv. by rewrite lookup_insert_ne.
  - destruct (users_by_id u d); unfold store; simpl; [done|].
    split_and!; [done..|]. intros v Hv. by rewrite lookup_insert_ne.
Qed.

Lemma addRecipeIngredients_frame u N d :
  let d' := store (ShoppingList.addRecipeIngredients u N d) in
  users d' = users d ∧ recipes d' = recipes d ∧ recipes_users d' = recipes_users d ∧
  ∀ v, v ≠ u → shopping_list d' !! v = shopping_list d !! v.
Proof.
  destruct (users_by_id u d) as [|r rs] eqn:Hu.
  - by rewrite addRecipeIngredients_unknown.
  - assert (users_by_id u d ≠ []) as Hne by (by rewrite Hu).
    destruct (shopping_list d !! u) as [S|] eqn:HS.
    + rewrite (addRecipeIngredients_stored u N d S Hne HS).
      destruct (ShoppingList.contained_by N S); [done|].
      unfold store; simpl. split_and!; [done..|]. intros v Hv. by rewrite lookup_insert_ne.
    + rewrite (addRecipeIngredients_fresh u N d Hne HS).
      unfold store; simpl. split_and!; [done..|]. intros v Hv. by rewrite lookup_insert_ne.
Qed.

(** The part of the store that a route may have changed. *)
Lemma route_frame (route : request shopping_body → locals → db → response * db) req res d :
  route = get_user_id ∨ route = post_user_id shoppingSchema_errors
    ∨ route = patch_user_id shoppingSchema_errors →
  let d' := (route req res d).2 in
  users d' = users d ∧ recipes d' = recipes d ∧ recipes_users d' = recipes_users d ∧
  ∀ v, shopping_list d' !! v ≠ shopping_list d !! v →
       ensureCorrectUser req res = None ∧ Js.parseInt (params_user_id req) = Some v.
Proof.
  intros [-> | [-> | ->]]; cbv zeta.
  - unfold get_user_id, ShoppingList.getUserShoppingList.
    destruct (ensureCorrectUser req res); [done|].
    destruct (Js.parseInt (params_user_id req)) as [userId|]; [|done].
    by destruct (shopping_list d !! userId).
  - unfold post_user_id.
    destruct (ensureCorrectUser req res); [done|].
    destruct (Js.parseInt (params_user_id req)) as [userId|]; [|done].
    destruct (shoppingSchema_errors (body req)); [|done].
    pose proof (addRecipeIngredients_frame userId (ingredients (body req)) d) as Hf.
    unfold store in Hf.
    destruct (ShoppingList.addRecipeIngredients userId _ d) as [[e|l] d']; simpl in *;
      destruct Hf as (? & ? & ? & Hother); (split_and!; [done..|]);
      intros v Hv; (split; [done|]); f_equal;
      destruct (decide (v = userId)) as [->|Hne]; try done; by destruct Hv; apply Hother.
  - unfold patch_user_id.
    destruct (ensureCorrectUser req res); [done|].
    destruct (Js.parseInt (params_user_id req)) as [userId|]; [|done].
    destruct (shoppingSchema_errors (body req)); [|done].
    pose proof (updateList_frame userId (ingredients (body req)) d) as Hf.
    unfold store in Hf.
    destruct (ShoppingList.updateList userId _ d) as [[e|l] d']; simpl in *;
      destruct Hf as (? & ? & ? & Hother); (split_and!; [done..|]);
      intros v Hv; (split; [done|]); f_equal;
      destruct (decide (v = userId)) as [->|Hne]; try done; by destruct Hv; apply Hother.
Qed.

(** X11: a shopping route changes nothing but the list of the user of its
    path, and only after the owner check let it through: for GET, POST and
    PATCH, and every request and store, the tables [users], [recipes] and
    [recipes_users] are left as they were, and when the list of a user [v]
    differs afterwards, [ensureCorrectUser] passed and the path identifier
    parses to [v]; the GET route changes nothing at all. *)
Theorem shopping_routes_touch_only_path_user req res d :
  (get_user_id req res d).2 = d ∧
  ∀ route,
    route = post_user_id shoppingSchema_errors ∨ route = patch_user_id shoppingSchema_errors →
    let d' := (route req res d).2 in
    users d' = users d ∧ recipes d' = recipes d ∧ recipes_users d' = recipes_users d ∧
    ∀ v, shopping_list d' !! v ≠ shopping_list d !! v →
         ensureCorrectUser req res = None ∧ Js.parseInt (params_user_id req) = Some v.
Proof.
  split.
  - unfold get_user_id, ShoppingList.getUserShoppingList.
    destruct (ensureCorrectUser req res); [done|].
    destruct (Js.parseInt (params_user_id req)) as [userId|]; [|done].
    by destruct (shopping_list d !! userId).
  - intros route Hroute. apply route_frame. by right.
Qed.




End shopping_routes.

(** ** The shopping routes behind the credential verifier *)

Section app_shopping.

Import Auth Routes App.

Variable shoppingSchema_errors : shopping_body → list string.
Variable jwt_verify : string → option claims.

Implicit Types (req : request shopping_body) (d : db) (v n : Z).

(** X15: through the application, a request changes the shopping list of a
    user only with a token for that user: when the list of [v] differs after
    a GET, POST or PATCH of [/shopping/:user_id], the request carries a
    bearer token that verifies to claims whose subject is the path
    identifier and reads as [v]; when the [user_id] of the claims is a
    number, that number is [v]. *)
Theorem app_shopping_isolation route req d v :
  route = get_user_id ∨ route = post_user_id shoppingSchema_errors
    ∨ route = patch_user_id shoppingSchema_errors →
  shopping_list (serve jwt_verify route req d).2 !! v ≠ shopping_list d !! v →
  ∃ h token c,
    headers_authorization req = Some h ∧ bearer_token h = Some token ∧
    jwt_verify token = Some c ∧
    subject c = params_user_id req ∧ Js.parseInt (subject c) = Some v ∧
    (∀ n, user_id c = IdNum n → n = v).
Proof.
  intros Hroute Hchanged. unfold serve in Hchanged.
  pose proof (authenticateJWT_user jwt_verify req) as Hauth.
  destruct (authenticateJWT jwt_verify req empty_locals) as [res [err|]] eqn:Hjwt;
    [done|].
  destruct (route_frame shoppingSchema_errors route req res d Hroute)
    as (_ & _ & _ & Hframe).
  destruct (Hframe v Hchanged) as [Hgate Hparse].
  pose proof (require_owner_cases res (params_user_id req)) as Hcases.
  unfold ensureCorrectUser in Hgate.
  destruct (user res) as [c|] eqn:Hu; [|by rewrite Hcases in Hgate].
  destruct Hcases as [[Hsub _]|[_ Hmis]]; [|by rewrite Hmis in Hgate].
  simpl in Hauth.
  destruct (Hauth c Hu) as (h & token & Hh & Ht & Hv).
  exists h, token, c. split_and!; [done..| by rewrite Hsub |].
  intros n Hn. unfold subject in Hsub. rewrite Hn in Hsub.
  rewrite <- Hsub, parseInt_pretty in Hparse. congruence.
Qed.

End app_shopping.

(** ** User directory, continued *)

Section user_store.

Import UserStore Constraints.

Variable bcrypt_hash : string → string → string.
Variable bcrypt_compare : string → string → bool.

Implicit Types (d : db) (u row : users_row) (x y : register_data).

Lemma head_None_nil {A} (l : list A) : head l = None → l = [].
Proof. by destruct l. Qed.

(** What a call of [insert_users] did: nothing when it threw, and otherwise
    it appended the returned row, whose key and unique columns were free. *)
Lemma insert_users_inv serial uname pw fname lname mail gid d :
  match insert_users serial uname pw fname lname mail gid d with
  | (inl _, d') => d' = d
  | (inr row, d') =>
      ∃ stored,
        match uname with
        | Some n => varchar 25 n = Some stored ∧ Schema.username row = Some stored
        | None => Schema.username row = None
        end ∧
        row = mk_user serial (Schema.username row) pw fname lname mail gid ∧
        d' = set_users (λ rows, (rows ++ [row])%list) d ∧
        users_by_id serial d = [] ∧
        (∀ n, Schema.username row = Some n → users_by_username n d = []) ∧
        (∀ g, gid = Some g → users_by_google_id g d = [])
  end.
Proof.
  unfold insert_users.
  destruct uname as [n|]; simpl.
  - destruct (varchar 25 n) as [stored|] eqn:Hv; simpl; [|done].
    destruct (users_email_check mail); simpl; [|done].
    destruct (users_by_id serial d) eqn:Hid; [|done].
    destruct (users_by_username stored d) eqn:Hn; [|done].
    destruct gid as [g|].
    + destruct (users_by_google_id g d) eqn:Hg; [|done].
      exists stored. simpl. split_and!; try done.
      * by intros ? [= <-].
      * by intros ? [= <-].
    + exists stored. simpl. split_and!; try done. by intros ? [= <-].
  - destruct (users_email_check mail); simpl; [|done].
    destruct (users_by_id serial d) eqn:Hid; [|done].
    destruct gid as [g|].
    + destruct (users_by_google_id g d) eqn:Hg; [|done].
      exists "". simpl. split_and!; try done. by intros ? [= <-].
    + exists "". simpl. by split_and!.
Qed.

(** What a successful [register] did. *)
Lemma register_success salt serial x d p d1 :
  register bcrypt_hash salt serial x d = (inr p, d1) →
  ∃ row stored,
    varchar 25 (username x) = Some stored ∧
    row = mk_user serial (Some stored) (Some (bcrypt_hash salt (password x)))
            (firstName x) (lastName x) (email x) None ∧
    p = profile_with_username row ∧
    d1 = set_users (λ rows, (rows ++ [row])%list) d ∧
    users_by_username (username x) d = [] ∧
    users_by_id serial d = [].
Proof.
  unfold register.
  destruct (head (users_by_username (username x) d)) as [r|] eqn:Hdup; [done|].
  apply head_None_nil in Hdup. rewrite bind_unfold.
  pose proof (insert_users_inv serial (Some (username x))
                (Some (bcrypt_hash salt (password x)))
                (firstName x) (lastName x) (email x) None d) as Hinv.
  destruct (insert_users _ _ _ _ _ _ _ d) as [[e|row] d']; [done|].
  destruct Hinv as (stored & [Hv Hname] & Hrow & Hd & Hid & _).
  intros [= <- <-]. exists row, stored. rewrite Hname in Hrow. by split_and!.
Qed.

Lemma register_failure_store salt serial x d e d1 :
  register bcrypt_hash salt serial x d = (inl e, d1) → d1 = d.
Proof.
  unfold register.
  destruct (head (users_by_username (username x) d)) as [r|]; [by intros [= _ <-]|].
  rewrite bind_unfold.
  pose proof (insert_users_inv serial (Some (username x))
                (Some (bcrypt_hash salt (password x)))
                (firstName x) (lastName x) (email x) None d) as Hinv.
  destruct (insert_users _ _ _ _ _ _ _ d) as [[e'|row] d']; [|done].
  by intros [= _ <-].
Qed.

(** X16: a username is registered once: after a successful [register], no
    later [register] with the same username succeeds, whatever its other
    fields, and it leaves the store as it found it. *)
Theorem register_twice_never_succeeds salt serial x d p salt' serial' y :
  result (register bcrypt_hash salt serial x d) = inr p →
  username y = username x →
  let d1 := store (register bcrypt_hash salt serial x d) in
  ∃ e, register bcrypt_hash salt' serial' y d1 = (inl e, d1).
Proof.
  intros Hok Hy d1. subst d1.
  destruct (register bcrypt_hash salt serial x d) as [[e|p'] d1] eqn:Hreg; [done|].
  unfold store; simpl.
  destruct (register_success _ _ _ _ _ _ Hreg) as (row & stored & Hv & Hrow & _ & Hd1 & _ & _).
  destruct (register bcrypt_hash salt' serial' y d1) as [[e|q] d2] eqn:Hreg2.
  - exists e. by rewrite (register_failure_store _ _ _ _ _ _ Hreg2).
  - exfalso. unfold register in Hreg2.
    destruct (head (users_by_username (username y) d1)) as [r|]; [done|].
    rewrite bind_unfold in Hreg2.
    pose proof (insert_users_inv serial' (Some (username y))
                  (Some (bcrypt_hash salt' (password y)))
                  (firstName y) (lastName y) (email y) None d1) as Hinv.
    destruct (insert_users _ _ _ _ _ _ _ d1) as [[e'|row'] d']; [done|].
    destruct Hinv as (stored' & [Hv' Hname'] & _ & _ & _ & Hfree & _).
    rewrite Hy, Hv in Hv'. injection Hv' as <-.
    specialize (Hfree stored Hname').
    assert (row ∈ users_by_username stored d1) as Hin.
    { unfold users_by_username. apply list_elem_of_filter. split.
      - by rewrite Hrow.
      - rewrite Hd1. simpl. apply elem_of_app. right. by apply list_elem_of_singleton. }
    rewrite Hfree in Hin. by apply not_elem_of_nil in Hin.
Qed.

(** X17: a registered user can log in: after a successful [register] with a
    username of at most 25 characters, [authenticate] with that username and
    a password that the hash collaborator accepts against the stored digest
    returns the profile that [register] returned, and with a password that
    it does not accept throws the [UnauthorizedError]. *)
Theorem register_then_authenticate salt serial x d p :
  result (register bcrypt_hash salt serial x d) = inr p →
  (char_length (username x) ≤ 25)%nat →
  let d1 := store (register bcrypt_hash salt serial x d) in
  ∀ plain,
    (bcrypt_compare plain (bcrypt_hash salt (password x)) = true →
       User.authenticate bcrypt_compare (username x) plain d1 = (inr p, d1)) ∧
    (bcrypt_compare plain (bcrypt_hash salt (password x)) = false →
       User.authenticate bcrypt_compare (username x) plain d1
         = (inl (UnauthorizedError (JStr "Invalid username/password")), d1)).
Proof.
  intros Hok Hlen d1 plain. subst d1.
  destruct (register bcrypt_hash salt serial x d) as [[e|p'] d1] eqn:Hreg; [done|].
  unfold result in Hok; simpl in Hok. injection Hok as ->. unfold store; simpl.
  destruct (register_success _ _ _ _ _ _ Hreg)
    as (row & stored & Hv & Hrow & Hp & Hd1 & Hfree & _).
  unfold varchar in Hv. apply Nat.leb_le in Hlen. rewrite Hlen in Hv. injection Hv as <-.
  assert (users_by_username (username x) d1 = [row]) as Hrows.
  { rewrite Hd1. unfold users_by_username in *. simpl.
    rewrite filter_app, Hfree. simpl. rewrite filter_cons_True; [done|]. by rewrite Hrow. }
  unfold User.authenticate. rewrite Hrows. simpl.
  replace (Schema.password row) with (Some (bcrypt_hash salt (password x)))
    by (by rewrite Hrow).
  split; intros ->; [|done]. by rewrite Hp.
Qed.

(** X18: the three writers of [users] keep every password login usable:
    when every row with a username has a digest, it is still so after
    [register], [googleRegister] and [remove], whatever their arguments and
    outcome. *)
Theorem users_writers_keep_username_has_password d :
  username_has_password d →
  (∀ salt serial x, username_has_password (store (register bcrypt_hash salt serial x d))) ∧
  (∀ serial g, username_has_password (store (googleRegister serial g d))) ∧
  (∀ uid, username_has_password (store (remove uid d))).
Proof.
  intros Hinv. split_and!.
  - intros salt serial x.
    destruct (register bcrypt_hash salt serial x d) as [[e|p] d1] eqn:Hreg.
    + by rewrite (register_failure_store _ _ _ _ _ _ Hreg).
    + destruct (register_success _ _ _ _ _ _ Hreg) as (row & stored & _ & Hrow & _ & Hd1 & _).
      unfold store; simpl. rewrite Hd1. intros u Hu Hname. simpl in Hu.
      apply elem_of_app in Hu as [Hu|Hu]; [by apply Hinv|].
      apply list_elem_of_singleton in Hu. subst u row. by eexists.
  - intros serial g. unfold googleRegister.
    destruct (head (users_by_google_id (googleId g) d)); [done|].
    rewrite bind_unfold.
    pose proof (insert_users_inv serial None None (g_firstName g) (g_lastName g)
                  (g_email g) (Some (googleId g)) d) as Hins.
    destruct (insert_users _ _ _ _ _ _ _ d) as [[e|row] d1].
    + by subst.
    + destruct Hins as (_ & Hname & _ & -> & _).
      unfold store; simpl. intros u Hu Hsome.
      apply elem_of_app in Hu as [Hu|Hu]; [by apply Hinv|].
      apply list_elem_of_singleton in Hu. subst u. rewrite Hname in Hsome.
      by destruct Hsome.
  - intros uid. unfold remove.
    destruct (head (users_by_id uid d)) as [r|]; [|done].
    unfold store; simpl. intros u Hu. apply Hinv.
    by apply list_elem_of_filter in Hu as [_ Hu].
Qed.

(** X19: on a store where every row with a username has a digest,
    [authenticate] either returns a profile or throws the
    [UnauthorizedError] for invalid credentials, and never changes the
    store. *)
Theorem authenticate_outcomes d name plain :
  username_has_password d →
  (∃ p, User.authenticate bcrypt_compare name plain d = (inr p, d)) ∨
  User.authenticate bcrypt_compare name plain d
    = (inl (UnauthorizedError (JStr "Invalid username/password")), d).
Proof.
  intros Hinv. unfold User.authenticate.
  destruct (head (users_by_username name d)) as [u|] eqn:Hhead; [|by right].
  assert (u ∈ users_by_username name d) as Hin.
  { destruct (users_by_username name d); [done|]. injection Hhead as ->. by left. }
  apply list_elem_of_filter in Hin as [Hname Hu].
  destruct (Hinv u Hu) as [hash Hhash]; [by rewrite Hname|].
  rewrite Hhash. destruct (bcrypt_compare plain hash); [left; eauto | by right].
Qed.

(** X20: the profile of a registered user can be read back: after a
    successful [register], [get] on the id of the new row returns that id
    with the first name, last name and email that were registered, and no
    password. *)
Theorem register_then_get salt serial x d p :
  result (register bcrypt_hash salt serial x d) = inr p →
  let d1 := store (register bcrypt_hash salt serial x d) in
  get_prop "user_id" p = Some (JNum serial) ∧
  get serial d1 =
    (inr (JObj [ ("user_id", JNum serial); ("firstName", JStr (firstName x));
                 ("lastName", JStr (lastName x)); ("email", JStr (email x)) ]), d1).
Proof.
  intros Hok d1. subst d1.
  destruct (register bcrypt_hash salt serial x d) as [[e|p'] d1] eqn:Hreg; [done|].
  unfold result in Hok; simpl in Hok. injection Hok as ->. unfold store; simpl.
  destruct (register_success _ _ _ _ _ _ Hreg)
    as (row & stored & _ & Hrow & Hp & Hd1 & _ & Hid).
  split; [by rewrite Hp, Hrow|].
  assert (users_by_id serial d1 = [row]) as Hrows.
  { rewrite Hd1. unfold users_by_id in *. simpl.
    rewrite filter_app, Hid. simpl. rewrite filter_cons_True; [done|]. by rewrite Hrow. }
  unfold get. rewrite Hrows. simpl. by rewrite Hrow.
Qed.

End user_store.

Section user_removal.

Import UserStore Constraints.

Implicit Types (d : db) (uid v : Z).

Lemma users_by_id_delete_users_ne uid v d :
  v ≠ uid → users_by_id v (delete_users uid d) = users_by_id v d.
Proof.
  intros Hv. unfold users_by_id, delete_users; simpl.
  induction (users d) as [|r l IH]; [done|].
  destruct (decide (user_id r = uid)) as [Hr|Hr].
  - rewrite (filter_cons_False (λ u, user_id u ≠ uid)) by (by intros ?).
    rewrite (filter_cons_False (λ u, user_id u = v)) by congruence. done.
  - rewrite (filter_cons_True (λ u, user_id u ≠ uid)) by done.
    destruct (decide (user_id r = v)) as [Hrv|Hrv].
    + rewrite !(filter_cons_True (λ u, user_id u = v)) by done. by rewrite IH.
    + rewrite !(filter_cons_False (λ u, user_id u = v)) by done. done.
Qed.




(** X22: the cascade of [remove] keeps the foreign key of [shopping_list]:
    when every list belongs to a row of [users] before [remove], whatever
    its argument and outcome, it does after. *)
Theorem remove_keeps_foreign_key d uid :
  fk_user_shopping_list d → fk_user_shopping_list (store (remove uid d)).
Proof.
  intros Hfk. unfold remove.
  destruct (head (users_by_id uid d)) as [r|]; [|done].
  unfold store; simpl. intros v Hv.
  destruct (decide (v = uid)) as [->|Hne].
  - simpl in Hv. rewrite lookup_delete_eq in Hv. by destruct Hv.
  - rewrite users_by_id_delete_users_ne by done. apply Hfk.
    simpl in Hv. by rewrite lookup_delete_ne in Hv.
Qed.

(** X23: a federated registration can log in and is registered once: after a
    successful [googleRegister], [authenticateWithGoogle] with the same id
    returns the new row, with the serial id, no username and the registered
    names and email, and a second [googleRegister] with that id throws
    [BadRequestError] and leaves the store alone. *)
Theorem googleRegister_then_authenticateWithGoogle serial g d p :
  result (googleRegister serial g d) = inr p →
  let d1 := store (googleRegister serial g d) in
  authenticateWithGoogle (googleId g) d1 =
    (inr (JObj [ ("user_id", JNum serial); ("username", JNull);
                 ("firstName", JStr (g_firstName g)); ("lastName", JStr (g_lastName g));
                 ("email", JStr (g_email g)) ]), d1) ∧
  ∀ serial' g', googleId g' = googleId g →
    googleRegister serial' g' d1 =
      (inl (BadRequestError (JStr ("Duplicate registration: " ++ googleId g))), d1).
Proof.
  intros Hok d1. subst d1. unfold googleRegister in *.
  destruct (head (users_by_google_id (googleId g) d)) as [r|] eqn:Hdup; [done|].
  apply head_None_nil in Hdup. rewrite bind_unfold in *.
  pose proof (insert_users_inv serial None None (g_firstName g) (g_lastName g)
                (g_email g) (Some (googleId g)) d) as Hins.
  destruct (insert_users _ _ _ _ _ _ _ d) as [[e|row] d1]; [done|].
  destruct Hins as (_ & Hname & Hrow & -> & _).
  rewrite Hname in Hrow. unfold store; simpl.
  assert (users_by_google_id (googleId g)
            (set_users (λ rows, (rows ++ [row])%list) d) = [row]) as Hrows.
  { unfold users_by_google_id in *. simpl. rewrite filter_app, Hdup. simpl.
    rewrite filter_cons_True; [done|]. by rewrite Hrow. }
  split.
  - unfold authenticateWithGoogle. rewrite Hrows. simpl. by rewrite Hrow.
  - intros serial' g' Hg. rewrite Hg, Hrows. done.
Qed.

End user_removal.

(** ** Recipe-user associations *)

Section recipes_users.

Import RecipesUsers.

Implicit Types (d : db) (uid : Z) (rid : string).

Lemma relationships_app rid uid d p :
  relationships rid uid (set_recipes_users (λ rows, (rows ++ [p])%list) d)
    = (relationships rid uid d ++ filter (λ q, q.2 = rid ∧ q.1 = uid) [p])%list.
Proof. unfold relationships; simpl. by rewrite filter_app. Qed.

(** What a successful insert of [addToUser] did. *)
Lemma addToUser_cases rid uid d :
  (relationships rid uid d ≠ [] ∧
     addToUser rid uid d = (inr (JObj [ ("?column?", JNum 1) ]), d)) ∨
  (relationships rid uid d = [] ∧
     ((∃ e, addToUser rid uid d = (inl e, d)) ∨
      addToUser rid uid d =
        (inr (JObj [ ("recipe_id", JStr rid); ("user_id", JNum uid) ]),
         set_recipes_users (λ rows, (rows ++ [(uid, rid)])%list) d))).
Proof.
  unfold addToUser. destruct (relationships rid uid d) as [|p l] eqn:Hrel; simpl.
  - right. split; [done|].
    destruct (users_by_id uid d); [eauto|]. destruct (recipes d !! rid); eauto.
  - left. by split.
Qed.

(** X24: [addToUser] is idempotent: a second call with the same recipe and
    user leaves the store of the first call, and when the first call
    associated them the second returns the row it found instead of inserting
    another. *)
Theorem addToUser_idempotent d rid uid :
  store ((addToUser rid uid;; addToUser rid uid) d) = store (addToUser rid uid d) ∧
  (∀ j, result (addToUser rid uid d) = inr j →
        result ((addToUser rid uid;; addToUser rid uid) d)
          = inr (JObj [ ("?column?", JNum 1) ])).
Proof.
  rewrite bind_unfold.
  destruct (addToUser_cases rid uid d) as [[Hrel ->]|[Hrel [[e ->]| ->]]].
  - destruct (addToUser_cases rid uid d) as [[_ ->]|[Hnil _]]; [by split | done].
  - by split.
  - assert (relationships rid uid
              (set_recipes_users (λ rows, (rows ++ [(uid, rid)])%list) d) ≠ []) as Hnow.
    { rewrite relationships_app, Hrel. simpl. by rewrite filter_cons_True. }
    destruct (addToUser_cases rid uid
                (set_recipes_users (λ rows, (rows ++ [(uid, rid)])%list) d))
      as [[_ ->]|[Hnil _]]; [by split | done].
Qed.

(** X25: [addToUser] keeps an association unique: when no pair of user and
    recipe occurs twice in [recipes_users] before the call, none does
    after. *)
Theorem addToUser_keeps_pairs_unique d rid uid :
  NoDup (recipes_users d) → NoDup (recipes_users (store (addToUser rid uid d))).
Proof.
  intros Hnd.
  destruct (addToUser_cases rid uid d) as [[Hrel ->]|[Hrel [[e ->]| ->]]]; [done..|].
  unfold store; simpl. apply NoDup_app. split_and!; [done| |apply NoDup_singleton].
  intros p Hp Hp'. apply list_elem_of_singleton in Hp'. subst p.
  assert ((uid, rid) ∈ relationships rid uid d) as Hin
    by (by apply list_elem_of_filter).
  rewrite Hrel in Hin. by apply not_elem_of_nil in Hin.
Qed.

(** X26: [removeFromUser] takes the association out and nothing else: after
    a successful call no row associates the user with the recipe, every
    other row of [recipes_users] is kept, and a second call throws
    [NotFoundError] and changes nothing. *)
Theorem removeFromUser_removes d uid rid :
  result (removeFromUser uid rid d) = inr () →
  let d1 := store (removeFromUser uid rid d) in
  ((uid, rid) ∉ recipes_users d1) ∧
  (∀ p, p ≠ (uid, rid) → (p ∈ recipes_users d1 ↔ p ∈ recipes_users d)) ∧
  removeFromUser uid rid d1 =
    (inl (NotFoundError (JStr ("No recipe-user relationship: " ++ rid
                               ++ " for user " ++ pretty uid))), d1).
Proof.
  unfold removeFromUser.
  destruct (head (relationships rid uid d)) as [q|] eqn:Hhead; [|done].
  intros _. unfold store; simpl.
  assert (∀ p, p ∈ filter (λ p, ¬ (p.2 = rid ∧ p.1 = uid)) (recipes_users d)
             ↔ p ≠ (uid, rid) ∧ p ∈ recipes_users d) as Hfilter.
  { intros [a b]. rewrite list_elem_of_filter. simpl. split.
    - intros [Hn Hin]. split; [|done]. intros [= -> ->]. by apply Hn.
    - intros [Hn Hin]. split; [|done]. intros [-> ->]. by apply Hn. }
  split_and!.
  - intros Hin. apply Hfilter in Hin as [Hne _]. done.
  - intros p Hp. rewrite Hfilter. split; [by intros [_ ?] | by intros ?].
  - assert (relationships rid uid
              (set_recipes_users (filter (λ p, ¬ (p.2 = rid ∧ p.1 = uid))) d) = []) as ->.
    { unfold relationships; simpl. apply elem_of_nil_inv. intros [a b] Hin.
      apply list_elem_of_filter in Hin as [[Hb Ha] Hin]. simpl in *. subst.
      apply Hfilter in Hin as [Hne _]. done. }
    done.
Qed.

(** X27: an association that [addToUser] made can be taken back: when
    [addToUser] succeeds, [removeFromUser] for the same user and recipe right
    after it succeeds too and leaves no row that associates them. *)
Theorem addToUser_then_removeFromUser d rid uid j :
  result (addToUser rid uid d) = inr j →
  let r := (addToUser rid uid;; removeFromUser uid rid) d in
  result r = inr () ∧ relationships rid uid (store r) = [].
Proof.
  intros Hok r. subst r. rewrite bind_unfold.
  assert (∀ d0, relationships rid uid d0 ≠ [] →
            result (removeFromUser uid rid d0) = inr () ∧
            relationships rid uid (store (removeFromUser uid rid d0)) = []) as Hrem.
  { intros d0 Hrel. unfold removeFromUser.
    destruct (relationships rid uid d0) as [|q l] eqn:Hq; [done|]. simpl.
    split; [done|]. unfold store, relationships; simpl.
    apply elem_of_nil_inv. intros [a b] Hin.
    apply list_elem_of_filter in Hin as [Hab Hin].
    apply list_elem_of_filter in Hin as [Hn _]. done. }
  destruct (addToUser_cases rid uid d) as [[Hrel Heq]|[Hrel [[e Heq]|Heq]]];
    rewrite Heq in Hok |- *; [by apply Hrem | done |].
  apply Hrem. rewrite relationships_app, Hrel. simpl. by rewrite filter_cons_True.
Qed.

End recipes_users.

(** ** The properties above on the rows of the tests *)

Lemma shopping_routes_touch_only_path_user_witness :
  let req := AuthTest.bearer_request AuthTest.u1Token "1" {| Routes.ingredients := ["i9"] |} in
  let res := {| Auth.user := Some AuthTest.u1_payload |} in
  (Routes.get_user_id req res TestCommon.test_db).2 = TestCommon.test_db ∧
  users (Routes.patch_user_id (λ _, []) req res TestCommon.test_db).2
    = users TestCommon.test_db.
Proof.
  intros req res.
  destruct (shopping_routes_touch_only_path_user (λ _, []) req res TestCommon.test_db)
    as [Hget Hwrite].
  split; [exact Hget|].
  exact (proj1 (Hwrite (Routes.patch_user_id (λ _, [])) (or_intror eq_refl))).
Defined.



Lemma app_shopping_isolation_witness :
  let req := AuthTest.bearer_request AuthTest.u1Token "1" {| Routes.ingredients := ["i3"] |} in
  ∃ h token c,
    Auth.headers_authorization req = Some h ∧ Auth.bearer_token h = Some token ∧
    AuthTest.toy_verify token = Some c ∧
    Auth.subject c = Auth.params_user_id req ∧ Js.parseInt (Auth.subject c) = Some 1 ∧
    (∀ n, Auth.user_id c = Auth.IdNum n → n = 1).
Proof.
  intros req.
  apply (app_shopping_isolation (λ _, []) AuthTest.toy_verify
           (Routes.patch_user_id (λ _, [])) req TestCommon.test_db 1).
  - right. by right.
  - vm_compute. discriminate.
Defined.

Lemma register_twice_never_succeeds_witness :
  let d1 := store (UserStore.register UserTest.toy_bcrypt_hash "salt" 4 UserTest.u4
                     TestCommon.test_db) in
  ∃ e, UserStore.register UserTest.toy_bcrypt_hash "pepper" 5 UserTest.u4 d1 = (inl e, d1).
Proof.
  eapply (register_twice_never_succeeds UserTest.toy_bcrypt_hash "salt" 4 UserTest.u4
            TestCommon.test_db _ "pepper" 5 UserTest.u4); reflexivity.
Defined.

Lemma register_then_authenticate_witness :
  let d1 := store (UserStore.register UserTest.toy_bcrypt_hash "salt" 4 UserTest.u4
                     TestCommon.test_db) in
  (∃ p, User.authenticate TestCommon.toy_compare "u4" "password4" d1 = (inr p, d1)) ∧
  User.authenticate TestCommon.toy_compare "u4" "password1" d1
    = (inl (UnauthorizedError (JStr "Invalid username/password")), d1).
Proof.
  intros d1.
  assert (∃ p, result (UserStore.register UserTest.toy_bcrypt_hash "salt" 4 UserTest.u4
                         TestCommon.test_db) = inr p) as [p Hp] by (eexists; reflexivity).
  assert (UserStore.char_length (UserStore.username UserTest.u4) ≤ 25)%nat as Hlen
    by (vm_compute; lia).
  pose proof (register_then_authenticate UserTest.toy_bcrypt_hash TestCommon.toy_compare
                "salt" 4 UserTest.u4 TestCommon.test_db p Hp Hlen) as H.
  split.
  - exists p. by apply (H "password4").
  - by apply (H "password1").
Defined.

Lemma test_db_username_has_password :
  Constraints.username_has_password TestCommon.test_db.
Proof.
  intros u Hu Hname. apply list_elem_of_In in Hu. simpl in Hu.
  destruct Hu as [<-|[<-|[<-|[]]]]; simpl in *; eauto.
Defined.

Lemma users_writers_keep_username_has_password_witness :
  Constraints.username_has_password TestCommon.test_db ∧
  Constraints.username_has_password
    (store (UserStore.register UserTest.toy_bcrypt_hash "salt" 4 UserTest.u4
              TestCommon.test_db)) ∧
  Constraints.username_has_password (store (UserStore.remove 1 TestCommon.test_db)).
Proof.
  split; [exact test_db_username_has_password|].
  destruct (users_writers_keep_username_has_password UserTest.toy_bcrypt_hash
              TestCommon.test_db test_db_username_has_password) as (Hreg & _ & Hrem).
  split; [apply Hreg | apply Hrem].
Defined.

Lemma authenticate_outcomes_witness :
  (∃ p, User.authenticate TestCommon.toy_compare "u3" "guess" TestCommon.test_db
        = (inr p, TestCommon.test_db)) ∨
  User.authenticate TestCommon.toy_compare "u3" "guess" TestCommon.test_db
    = (inl (UnauthorizedError (JStr "Invalid username/password")), TestCommon.test_db).
Proof.
  exact (authenticate_outcomes TestCommon.toy_compare TestCommon.test_db "u3" "guess"
           test_db_username_has_password).
Defined.

Lemma register_then_get_witness :
  let d1 := store (UserStore.register UserTest.toy_bcrypt_hash "salt" 4 UserTest.u4
                     TestCommon.test_db) in
  UserStore.get 4 d1 =
    (inr (JObj [ ("user_id", JNum 4); ("firstName", JStr "U4F");
                 ("lastName", JStr "U4L"); ("email", JStr "user4@user.com") ]), d1).
Proof.
  intros d1.
  assert (∃ p, result (UserStore.register UserTest.toy_bcrypt_hash "salt" 4 UserTest.u4
                         TestCommon.test_db) = inr p) as [p Hp] by (eexists; reflexivity).
  exact (proj2 (register_then_get UserTest.toy_bcrypt_hash "salt" 4 UserTest.u4
                  TestCommon.test_db p Hp)).
Defined.


Lemma remove_keeps_foreign_key_witness :
  Constraints.fk_user_shopping_list (store (UserStore.remove 1 TestCommon.test_db)).
Proof.
  exact (remove_keeps_foreign_key TestCommon.test_db 1 test_db_foreign_key).
Defined.

Lemma googleRegister_then_authenticateWithGoogle_witness :
  let d1 := store (UserStore.googleRegister 4 UserTest.g5 TestCommon.test_db) in
  UserStore.authenticateWithGoogle "456def" d1 =
    (inr (JObj [ ("user_id", JNum 4); ("username", JNull); ("firstName", JStr "U5F");
                 ("lastName", JStr "U5L"); ("email", JStr "user5@user.com") ]), d1) ∧
  UserStore.googleRegister 5 UserTest.g5 d1 =
    (inl (BadRequestError (JStr "Duplicate registration: 456def")), d1).
Proof.
  intros d1.
  assert (∃ p, result (UserStore.googleRegister 4 UserTest.g5 TestCommon.test_db) = inr p)
    as [p Hp] by (eexists; reflexivity).
  destruct (googleRegister_then_authenticateWithGoogle 4 UserTest.g5 TestCommon.test_db p Hp)
    as [Hauth Hdup].
  split; [exact Hauth|]. exact (Hdup 5 UserTest.g5 eq_refl).
Defined.

Lemma addToUser_idempotent_witness :
  result ((RecipesUsers.addToUser "123abc" 1;; RecipesUsers.addToUser "123abc" 1)
            TestCommon.test_db) = inr (JObj [ ("?column?", JNum 1) ]) ∧
  store ((RecipesUsers.addToUser "123abc" 1;; RecipesUsers.addToUser "123abc" 1)
           TestCommon.test_db) = store (RecipesUsers.addToUser "123abc" 1 TestCommon.test_db).
Proof.
  destruct (addToUser_idempotent TestCommon.test_db "123abc" 1) as [Hstore Hres].
  split; [|exact Hstore]. eapply Hres. reflexivity.
Defined.

Lemma addToUser_keeps_pairs_unique_witness :
  NoDup (recipes_users (store (RecipesUsers.addToUser "123abc" 1 TestCommon.test_db))).
Proof.
  apply (addToUser_keeps_pairs_unique TestCommon.test_db "123abc" 1). apply NoDup_nil_2.
Defined.

Lemma removeFromUser_removes_witness :
  let d0 := store (RecipesUsers.addToUser "123abc" 1 TestCommon.test_db) in
  let d1 := store (RecipesUsers.removeFromUser 1 "123abc" d0) in
  ((1, "123abc") ∉ recipes_users d1) ∧
  RecipesUsers.removeFromUser 1 "123abc" d1 =
    (inl (NotFoundError (JStr "No recipe-user relationship: 123abc for user 1")), d1).
Proof.
  intros d0 d1.
  destruct (removeFromUser_removes d0 1 "123abc") as (H1 & _ & H3); [reflexivity|].
  by split.
Defined.

Lemma addToUser_then_removeFromUser_witness :
  let r := (RecipesUsers.addToUser "123abc" 1;; RecipesUsers.removeFromUser 1 "123abc")
             TestCommon.test_db in
  result r = inr () ∧ RecipesUsers.relationships "123abc" 1 (store r) = [].
Proof.
  eapply (addToUser_then_removeFromUser TestCommon.test_db "123abc" 1). reflexivity.
Defined.


Lemma sanitize_fixes_iff_no_quote_witness :
  Recipe.sanitize "www.i1.com" = "www.i1.com" ∧
  Recipe.sanitize (Recipe.recipe_id RecipeTest.quoted) ≠ Recipe.recipe_id RecipeTest.quoted.
Proof.
  split.
  - apply (proj2 (sanitize_fixes_iff_no_quote "www.i1.com")). reflexivity.
  - intros H. apply (proj1 (sanitize_fixes_iff_no_quote _)) in H. discriminate.
Defined.
